(** * RedisCacheService (apps/api/src/app/redis-cache/redis-cache.service.ts)

    A shallow embedding of the cache service of the API and the proofs of
    the properties its specification states: key derivation, the default
    time-to-live of [set], enumeration by prefix, invalidation of a user's
    portfolio snapshots and the health check.

    Strings are byte strings (the UTF-8 encoding of the JavaScript string),
    instants and durations are integers in milliseconds. *)

From Stdlib Require Import ZArith String Ascii List Lia DecimalString DecimalPos DecimalZ.
From stdpp Require Import base gmap strings list.

Import ListNotations.

Set Warnings "-register-all".

(** ** JavaScript values the service handles *)

(** An optional argument: omitted (which JavaScript reads as [undefined]),
    [null], or given. *)
Inductive optional (A : Type) : Type :=
| Undefined
| Null
| Given (a : A).
Arguments Undefined {A}.
Arguments Null {A}.
Arguments Given {A} a.

(** [a ?? b] *)
Definition nullish_coalesce {A : Type} (a : optional A) (b : A) : A :=
  match a with
  | Given x => x
  | Undefined | Null => b
  end.

(** Truthiness of an optional string: [undefined], [null] and the empty
    string are falsy. *)
Definition truthy (s : optional string) : bool :=
  match s with
  | Given (String _ _) => true
  | _ => false
  end.

(** [String.prototype.startsWith] *)
Definition startsWith (key prefix : string) : bool := String.prefix prefix key.

(** Plain data as [JSON.stringify] sees it.  A number is an integer; an
    object is the list of its own enumerable properties in the order
    [JSON.stringify] visits them.  The serialization below is the one of
    JavaScript for the values that are [plain]: a JavaScript number holds the
    integers of the safe range exactly and prints them in plain decimal,
    while beyond that range it rounds them and, from 1e21 on, prints an
    exponent. *)
Inductive JSON : Type :=
| JNull
| JBool (b : bool)
| JNumber (z : Z)
| JString (s : string)
| JArray (items : list JSON)
| JObject (props : list (string * JSON)).

(** A filter is a plain object; its interface is declared outside this
    file ([@ghostfolio/common/interfaces]), so any plain value is admitted. *)
Definition Filter : Type := JSON.

Module Json.

Definition quote : ascii := "034"%char.
Definition backslash : ascii := "092"%char.

Definition hex_digit (n : N) : ascii :=
  match n with
  | 0 => "0" | 1 => "1" | 2 => "2" | 3 => "3" | 4 => "4" | 5 => "5"
  | 6 => "6" | 7 => "7" | 8 => "8" | 9 => "9" | 10 => "a" | 11 => "b"
  | 12 => "c" | 13 => "d" | 14 => "e" | _ => "f"
  end%N%char.

(** QuoteJSONString, one code unit: the short escapes, [\u00xx] for the
    other control characters, the character itself otherwise. *)
Definition escape_char (c : ascii) : string :=
  let n := N_of_ascii c in
  if (n =? 8)%N then String backslash "b"
  else if (n =? 9)%N then String backslash "t"
  else if (n =? 10)%N then String backslash "n"
  else if (n =? 12)%N then String backslash "f"
  else if (n =? 13)%N then String backslash "r"
  else if (n =? 34)%N then String backslash (String quote EmptyString)
  else if (n =? 92)%N then String backslash (String backslash EmptyString)
  else if (n <? 32)%N then
    String backslash
      (String "u" (String "0" (String "0"
         (String (hex_digit (n / 16)) (String (hex_digit (n mod 16)) EmptyString)))))
  else String c EmptyString.

Fixpoint escape (s : string) : string :=
  match s with
  | EmptyString => EmptyString
  | String c r => escape_char c +:+ escape r
  end.

Definition quoted (s : string) : string :=
  String quote (escape s +:+ String quote EmptyString).

(** A number in plain decimal, as JavaScript prints a safe integer. *)
Definition number (z : Z) : string := NilZero.string_of_int (Z.to_int z).

(** [Array.prototype.join] *)
Fixpoint join (separator : string) (l : list string) : string :=
  match l with
  | [] => EmptyString
  | [x] => x
  | x :: r => x +:+ separator +:+ join separator r
  end.

(** [JSON.stringify] without replacer or indentation. *)
Fixpoint stringify (j : JSON) : string :=
  match j with
  | JNull => "null"
  | JBool true => "true"
  | JBool false => "false"
  | JNumber z => number z
  | JString s => quoted s
  | JArray items => "[" +:+ join "," (map stringify items) +:+ "]"
  | JObject props =>
      "{" +:+ join "," (map (fun kv => quoted kv.1 +:+ ":" +:+ stringify kv.2) props) +:+ "}"
  end.






End Json.

(** ** SHA-256 (FIPS 180-4), as [createHash('sha256')] computes it *)

Module SHA256.

Local Open Scope Z_scope.

Definition word (x : Z) : Z := Z.land x 0xffffffff.
Definition add (x y : Z) : Z := word (x + y).
Definition rotr (n x : Z) : Z := Z.lor (Z.shiftr x n) (word (Z.shiftl x (32 - n))).
Definition shr (n x : Z) : Z := Z.shiftr x n.
Definition xor3 (x y z : Z) : Z := Z.lxor (Z.lxor x y) z.

Definition Ch (x y z : Z) : Z :=
  Z.lxor (Z.land x y) (Z.land (Z.lxor x 0xffffffff) z).
Definition Maj (x y z : Z) : Z :=
  xor3 (Z.land x y) (Z.land x z) (Z.land y z).
Definition Sigma0 (x : Z) : Z := xor3 (rotr 2 x) (rotr 13 x) (rotr 22 x).
Definition Sigma1 (x : Z) : Z := xor3 (rotr 6 x) (rotr 11 x) (rotr 25 x).
Definition sigma0 (x : Z) : Z := xor3 (rotr 7 x) (rotr 18 x) (shr 3 x).
Definition sigma1 (x : Z) : Z := xor3 (rotr 17 x) (rotr 19 x) (shr 10 x).

(** The first [n] primes, by trial division. *)
Definition is_prime (p : nat) : bool :=
  forallb (fun d => negb (Nat.eqb (Nat.modulo p d) 0)) (seq 2 (p - 2)).

Definition first_primes (n : nat) : list Z :=
  map Z.of_nat (firstn n (List.filter is_prime (seq 2 400))).

(** The integer part of the cube root, one bit at a time. *)
Definition cbrt_floor (n : Z) : Z :=
  fold_left (fun r i => let r' := r + 2 ^ Z.of_nat i in
                        if r' * r' * r' <=? n then r' else r)
            (rev (seq 0 40)) 0.

(** The round constants: the first 32 bits of the fractional parts of the
    cube roots of the first 64 primes. *)
Definition K : list Z :=
  Eval vm_compute in map (fun p => word (cbrt_floor (p * 2 ^ 96))) (first_primes 64).

Record state : Type := State
  { sa : Z; sb : Z; sc : Z; sd : Z; se : Z; sf : Z; sg : Z; sh : Z }.

(** The initial hash value: the first 32 bits of the fractional parts of
    the square roots of the first 8 primes. *)
Definition H0 : state :=
  Eval vm_compute in
    match map (fun p => word (Z.sqrt (p * 2 ^ 64))) (first_primes 8) with
    | [a; b; c; d; e; f; g; h] => State a b c d e f g h
    | _ => State 0 0 0 0 0 0 0 0
    end.

(** Padding: the bit 1, zeros up to 56 modulo 64 bytes, then the length
    in bits as a 64-bit big-endian integer. *)
Definition be_bytes (n : nat) (x : Z) : list Z :=
  map (fun i => Z.land (Z.shiftr x (8 * Z.of_nat i)) 0xff) (rev (seq 0 n)).

Definition pad (msg : list Z) : list Z :=
  let len := Z.of_nat (length msg) in
  msg ++ [0x80] ++ repeat 0 (Z.to_nat ((55 - len) mod 64)) ++ be_bytes 8 (8 * len).

Fixpoint words (bs : list Z) : list Z :=
  match bs with
  | b0 :: b1 :: b2 :: b3 :: r =>
      Z.lor (Z.lor (Z.shiftl b0 24) (Z.shiftl b1 16)) (Z.lor (Z.shiftl b2 8) b3)
      :: words r
  | _ => []
  end.

Fixpoint blocks (fuel : nat) (ws : list Z) : list (list Z) :=
  match fuel, ws with
  | S fuel', _ :: _ => firstn 16 ws :: blocks fuel' (skipn 16 ws)
  | _, _ => []
  end.

(** Message schedule: [w] holds W[0..t-1]; [n] more words are appended. *)
Fixpoint schedule (n : nat) (w : list Z) : list Z :=
  match n with
  | O => w
  | S n' =>
      let t := length w in
      let W i := nth (t - i)%nat w 0 in
      schedule n' (w ++ [add (add (sigma1 (W 2%nat)) (W 7%nat))
                             (add (sigma0 (W 15%nat)) (W 16%nat))])
  end.

Definition round (s : state) (kw : Z * Z) : state :=
  let t1 := add (add (add (sh s) (Sigma1 (se s))) (add (Ch (se s) (sf s) (sg s)) (fst kw)))
                (snd kw) in
  let t2 := add (Sigma0 (sa s)) (Maj (sa s) (sb s) (sc s)) in
  State (add t1 t2) (sa s) (sb s) (sc s) (add (sd s) t1) (se s) (sf s) (sg s).

Definition compress (h : state) (block : list Z) : state :=
  let s := fold_left round (combine K (schedule 48 block)) h in
  State (add (sa h) (sa s)) (add (sb h) (sb s)) (add (sc h) (sc s))
        (add (sd h) (sd s)) (add (se h) (se s)) (add (sf h) (sf s))
        (add (sg h) (sg s)) (add (sh h) (sh s)).

Definition hash (msg : list Z) : state :=
  let ws := words (pad msg) in
  fold_left compress (blocks (length ws) ws) H0.

Definition nibble (w : Z) (i : Z) : ascii :=
  Json.hex_digit (Z.to_N (Z.land (Z.shiftr w (28 - 4 * i)) 15)).

Definition word_hex (w : Z) (rest : string) : string :=
  String (nibble w 0) (String (nibble w 1) (String (nibble w 2) (String (nibble w 3)
  (String (nibble w 4) (String (nibble w 5) (String (nibble w 6) (String (nibble w 7)
  rest))))))).

Definition hex (s : state) : string :=
  word_hex (sa s) (word_hex (sb s) (word_hex (sc s) (word_hex (sd s)
  (word_hex (se s) (word_hex (sf s) (word_hex (sg s) (word_hex (sh s)
  EmptyString))))))).

Definition bytes_of_string (s : string) : list Z :=
  map (fun c => Z.of_N (N_of_ascii c)) (list_ascii_of_string s).

(** [createHash('sha256').update(s).digest('hex')] *)
Definition sha256_hex (s : string) : string := hex (hash (bytes_of_string s)).

End SHA256.

(** ** The store behind the client

    [this.client] is a Keyv instance in front of Redis; its code is not part
    of the service.  Time is the clock of the process in milliseconds; a
    call to the store takes effect when its answer arrives. *)

(** Modelled from the spec: an entry of the store, with its value and its
    optional expiration instant. *)
Record Entry : Type := { entry_value : string; entry_expires : option Z }.

(** What the client is asked to do. *)
Inductive Call : Type :=
| CallGet (key : string)
| CallSet (key value : string) (ttl : Z)
| CallDelete (key : string)
| CallDeleteMany (keys : list string)
| CallClear
| CallIterator.

(** How the store answers one call: it serves it after [delay]
    milliseconds, refuses it after [delay] milliseconds (a connectivity
    failure), breaks off an enumeration after [served] entries, or leaves
    the call pending for as long as anybody waits. *)
Inductive Link : Type :=
| Up (delay : N)
| Down (delay : N) (error : string)
| Breaks (served : nat) (error : string)
| Stalled.

Record World : Type := {
  store : gmap string Entry;
  now : Z;                    (* Date.now() *)
  CACHE_TTL : Z;              (* configurationService.get('CACHE_TTL') *)
  links : list Link;          (* the answers to the coming calls; served at once when exhausted *)
  calls : list Call;          (* the calls issued so far, oldest first *)
  in_flight : list Call;      (* calls the caller has stopped waiting for *)
  timer : option Z;           (* the instant at which a running race timer fires *)
  logged : list string        (* what Logger.error was given, an Error by its message *)
}.

Definition with_store (m : gmap string Entry) (w : World) : World :=
  {| store := m; now := now w; CACHE_TTL := CACHE_TTL w; links := links w;
     calls := calls w; in_flight := in_flight w; timer := timer w; logged := logged w |}.

Definition with_now (t : Z) (w : World) : World :=
  {| store := store w; now := t; CACHE_TTL := CACHE_TTL w; links := links w;
     calls := calls w; in_flight := in_flight w; timer := timer w; logged := logged w |}.

Definition with_timer (t : option Z) (w : World) : World :=
  {| store := store w; now := now w; CACHE_TTL := CACHE_TTL w; links := links w;
     calls := calls w; in_flight := in_flight w; timer := t; logged := logged w |}.

Definition with_logged (msg : string) (w : World) : World :=
  {| store := store w; now := now w; CACHE_TTL := CACHE_TTL w; links := links w;
     calls := calls w; in_flight := in_flight w; timer := timer w;
     logged := logged w ++ [msg] |}.

(** Issuing a call records it and consumes the next answer. *)
Definition issue (c : Call) (w : World) : World :=
  {| store := store w; now := now w; CACHE_TTL := CACHE_TTL w; links := tl (links w);
     calls := calls w ++ [c]; in_flight := in_flight w; timer := timer w;
     logged := logged w |}.

(** The caller stops waiting for a call: at once when it never settles, or
    when the race timer fires.  The world follows the caller: the call stays
    with the store, recorded in [in_flight], and what it still does there
    (take effect late, be refused late, let the function that issued it go
    on) is not part of [calls], [store] and [logged]. *)
Definition abandon (c : Call) (w : World) : World :=
  {| store := store w; now := default (now w) (timer w); CACHE_TTL := CACHE_TTL w;
     links := links w; calls := calls w; in_flight := in_flight w ++ [c];
     timer := timer w; logged := logged w |}.

Definition next_link (w : World) : Link := hd (Up 0) (links w).

(** The race timer fires no later than an answer due at instant [t]: that
    answer comes too late for the race. *)
Definition timer_first (w : World) (t : Z) : bool :=
  match timer w with
  | Some fires => (fires <=? t)%Z
  | None => false
  end.

(** Modelled from the spec: an entry whose expiration has elapsed is absent.
    As in Keyv the expiration instant is computed when [set] is called, and a
    ttl of 0 stores the entry without expiration. *)
Definition expired (t : Z) (e : Entry) : bool :=
  match entry_expires e with
  | Some x => (x <? t)%Z
  | None => false
  end.

Definition expires_at (issued ttl : Z) : option Z :=
  if (ttl =? 0)%Z then None else Some (issued + ttl)%Z.

(** Modelled from the spec: what the operations of the store do to its
    entries.  A key has one entry; [set] overwrites it together with its
    expiration; [get] and the enumeration see the entries that have not
    expired; the deletions remove the entries of the keys they name. *)
Module Store.

Definition get (t : Z) (key : string) (m : gmap string Entry) : option string :=
  match m !! key with
  | Some e => if expired t e then None else Some (entry_value e)
  | None => None
  end.

Definition set (issued : Z) (key value : string) (ttl : Z) (m : gmap string Entry)
  : gmap string Entry :=
  <[key := {| entry_value := value; entry_expires := expires_at issued ttl |}]> m.

Definition deleteMany (keys : list string) (m : gmap string Entry) : gmap string Entry :=
  foldr delete m keys.

(** The live entries, in the order the store enumerates them. *)
Definition entries (t : Z) (m : gmap string Entry) : list (string * string) :=
  omap (fun kv => if expired t kv.2 then None else Some (kv.1, entry_value kv.2))
       (map_to_list m).

End Store.

(** ** Asynchronous computations *)

Inductive Outcome (A : Type) : Type :=
| Returned (a : A)
| Thrown (error : string)
| Pending.
Arguments Returned {A} a.
Arguments Thrown {A} error.
Arguments Pending {A}.

Definition Async (A : Type) : Type := World -> Outcome A * World.

Definition resolve {A : Type} (a : A) : Async A := fun w => (Returned a, w).
Definition throw {A : Type} (error : string) : Async A := fun w => (Thrown error, w).

(** [await m] followed by [k]. *)
Definition await {A B : Type} (m : Async A) (k : A -> Async B) : Async B :=
  fun w =>
    match m w with
    | (Returned a, w') => k a w'
    | (Thrown e, w') => (Thrown e, w')
    | (Pending, w') => (Pending, w')
    end.

Notation "'let!' x ':=' m 'in' k" := (await m (fun x => k))
  (at level 10, x name, m at level 100, k at level 200).

(** [try { m } catch (error) { handler }] *)
Definition try_catch {A : Type} (m : Async A) (handler : string -> Async A) : Async A :=
  fun w =>
    match m w with
    | (Thrown e, w') => handler e w'
    | r => r
    end.

(** [try { m } finally { cleanup }]: the cleanup runs once [m] has
    completed, and the completion of [m] stands when the cleanup completes
    normally. *)
Definition try_finally {A : Type} (m : Async A) (cleanup : Async unit) : Async A :=
  fun w =>
    match m w with
    | (Pending, w') => (Pending, w')
    | (r, w') =>
        match cleanup w' with
        | (Returned _, w'') => (r, w'')
        | (Thrown e, w'') => (Thrown e, w'')
        | (Pending, w'') => (Pending, w'')
        end
    end.

(** [Promise.race([m, new Promise((_, reject) => setTimeout(() =>
    reject(new Error(error)), ms))])]: while [m] runs the timer is armed, and
    the caller stops waiting for a call of [m] still pending when it fires.
    The race cancels nothing: the overtaken [m] goes on behind the caller's
    back (see [abandon]), so the statements about a race that the timer won
    leave room for the calls and log entries that may still follow. *)
Definition race_timeout {A : Type} (m : Async A) (ms : Z) (error : string) : Async A :=
  fun w =>
    match m (with_timer (Some (now w + ms)%Z) w) with
    | (Pending, w') => (Thrown error, with_timer None w')
    | (r, w') => (r, with_timer None w')
    end.

(** The listener the constructor registers on the client:
    [this.client.on('error', (error) => { Logger.error(error, 'RedisCacheService') })]. *)
Definition on_client_error (error : string) (w : World) : World := with_logged error w.

(** One call to the client with a single reply.

    Modelled from the spec: a call the store refuses is a connectivity
    failure, which the client raises to the caller and also emits as an
    ['error'] event (sections 6 and 7); the listener of the constructor logs
    that event. *)
Definition client_call {A : Type} (c : Call) (reply : Z -> World -> A * World) : Async A :=
  fun w =>
    let issued := now w in
    let w1 := issue c w in
    match next_link w with
    | Up delay =>
        let t := (issued + Z.of_N delay)%Z in
        if timer_first w t then (Pending, abandon c w1)
        else let (a, w2) := reply issued (with_now t w1) in (Returned a, w2)
    | Down delay error =>
        let t := (issued + Z.of_N delay)%Z in
        if timer_first w t then (Pending, abandon c w1)
        else (Thrown error, on_client_error error (with_now t w1))
    | Breaks _ error => (Thrown error, on_client_error error w1)
    | Stalled => (Pending, abandon c w1)
    end.

(** The entries an enumeration delivers, one at a time. *)
Inductive Stream : Type :=
| StreamEnd
| StreamYield (key value : string) (rest : Stream)
| StreamThrow (error : string)
| StreamPending.

Fixpoint stream_of (l : list (string * string)) (last : Stream) : Stream :=
  match l with
  | [] => last
  | (k, v) :: r => StreamYield k v (stream_of r last)
  end.

(** The Keyv client. *)
Module Client.

Definition get (key : string) : Async (option string) :=
  client_call (CallGet key) (fun _ w => (Store.get (now w) key (store w), w)).

Definition set (key value : string) (ttl : Z) : Async unit :=
  client_call (CallSet key value ttl)
    (fun issued w => (tt, with_store (Store.set issued key value ttl (store w)) w)).

Definition delete (key : string) : Async unit :=
  client_call (CallDelete key) (fun _ w => (tt, with_store (delete key (store w)) w)).

Definition deleteMany (keys : list string) : Async unit :=
  client_call (CallDeleteMany keys)
    (fun _ w => (tt, with_store (Store.deleteMany keys (store w)) w)).

Definition clear : Async unit :=
  client_call CallClear (fun _ w => (tt, with_store ∅ w)).

(** [iterator({})] hands out the live entries; the failure of an
    enumeration shows while it is consumed. *)
Definition iterator (w : World) : Stream * World :=
  let w1 := issue CallIterator w in
  match next_link w with
  | Up delay =>
      let w2 := with_now (now w + Z.of_N delay)%Z w1 in
      (stream_of (Store.entries (now w2) (store w2)) StreamEnd, w2)
  | Breaks served error =>
      (stream_of (firstn served (Store.entries (now w1) (store w1))) (StreamThrow error),
       on_client_error error w1)
  | Down delay error =>
      (StreamThrow error, on_client_error error (with_now (now w + Z.of_N delay)%Z w1))
  | Stalled => (StreamPending, abandon CallIterator w1)
  end.

End Client.

(** [ms('1 second')] and [ms('2 seconds')] *)
Definition ms_1_second : Z := 1000.
Definition ms_2_seconds : Z := 2000.

(** [Date.now()] *)
Definition Date_now : Async Z := fun w => (Returned (now w), w).

(** [Logger.error(message, 'RedisCacheService')] *)
Definition Logger_error (message : string) : Async unit :=
  fun w => (Returned tt, with_logged message w).

(** Modelled from the spec: [getAssetProfileIdentifier] of
    [@ghostfolio/common/helper] is not part of this file; the quote key
    format [quote-{dataSource}:{symbol}] fixes what it returns. *)
Definition getAssetProfileIdentifier (dataSource symbol : string) : string :=
  dataSource +:+ ":" +:+ symbol.

(** ** The service *)

Module RedisCacheService.

Definition get (key : string) : Async (option string) := Client.get key.

(** The test of the loop body:
    [(prefix && key.startsWith(prefix)) || !prefix]. *)
Definition selected (prefix : optional string) (key : string) : bool :=
  let starts := match prefix with Given p => startsWith key p | _ => false end in
  (truthy prefix && starts) || negb (truthy prefix).

(** [for await (const [key] of ...) { if (...) keys.push(key) }]: the keys
    pushed, and how the loop completed. *)
Fixpoint for_await (prefix : optional string) (s : Stream) (keys : list string)
  : list string * Outcome unit :=
  match s with
  | StreamEnd => (keys, Returned tt)
  | StreamYield key _ rest =>
      for_await prefix rest (if selected prefix key then keys ++ [key] else keys)
  | StreamThrow error => (keys, Thrown error)
  | StreamPending => (keys, Pending)
  end.

Definition getKeys (aPrefix : optional string) : Async (list string) :=
  fun w =>
    let prefix := aPrefix in
    let (s, w1) := Client.iterator w in
    match for_await prefix s [] with
    | (keys, Returned _) => (Returned keys, w1)
    | (keys, Thrown _) => (Returned keys, w1)     (* catch {} *)
    | (_, Pending) => (Pending, w1)
    end.

Definition getQuoteKey (dataSource symbol : string) : string :=
  "quote-" +:+ getAssetProfileIdentifier dataSource symbol.

(** [filters?.length > 0] holds for a non-empty array only: for an omitted
    or [null] argument [filters?.length] is [undefined], and [undefined > 0]
    is false. *)
Definition getPortfolioSnapshotKey (filters : optional (list Filter)) (userId : string)
  : string :=
  let portfolioSnapshotKey := "portfolio-snapshot-" +:+ userId in
  match filters with
  | Given (f :: fs) =>
      let filtersHash := SHA256.sha256_hex (Json.stringify (JArray (f :: fs))) in
      portfolioSnapshotKey +:+ "-" +:+ filtersHash
  | Given [] | Undefined | Null => portfolioSnapshotKey
  end.

Definition remove (key : string) : Async unit := Client.delete key.

Definition set (key value : string) (ttl : optional Z) : Async unit :=
  fun w => Client.set key value (nullish_coalesce ttl (CACHE_TTL w)) w.

Definition testKey : string := "__health_check__".

Definition probe (testValue : string) : Async unit :=
  let! _ := set testKey testValue (Given ms_1_second) in
  let! result := get testKey in
  if decide (result = Some testValue) then resolve tt
  else throw "Redis health check failed: value mismatch".

(** The [try] block with its [catch]: the race of the probe against the
    timer, and the conversion of a failure into [false]. *)
Definition check (testValue : string) : Async bool :=
  try_catch
    (let! _ := race_timeout (probe testValue) ms_2_seconds
                 "Redis health check failed: timeout" in
     resolve true)
    (fun error => let! _ := Logger_error error in resolve false).

(** The [finally] block. *)
Definition cleanup : Async unit :=
  try_catch (remove testKey) (fun _ => resolve tt).

Definition isHealthy : Async bool :=
  let! instant := Date_now in
  let testValue := Json.number instant in
  try_finally (check testValue) cleanup.

Definition removePortfolioSnapshotsByUserId (userId : string) : Async unit :=
  let! keys := getKeys (Given (getPortfolioSnapshotKey Undefined userId)) in
  Client.deleteMany keys.

Definition reset : Async unit := Client.clear.

End RedisCacheService.

(** ** Auxiliary definitions for the statements *)

(** The ttl handed to the client. *)
Definition effective_ttl (ttl : optional Z) (w : World) : Z :=
  match ttl with
  | Given n => n
  | Undefined | Null => CACHE_TTL w
  end.

(** The world after running [m]. *)
Definition after {A : Type} (m : Async A) (w : World) : World := (m w).2.

(** A service that has just started: an empty store, no call issued. *)
Definition fresh (t ttl : Z) (answers : list Link) : World :=
  {| store := ∅; now := t; CACHE_TTL := ttl; links := answers; calls := [];
     in_flight := []; timer := None; logged := [] |}.

(** [frames K m]: running [m] leaves the entry of every key outside [K] as
    it was. *)
Definition frames {A : Type} (K : string -> Prop) (m : Async A) : Prop :=
  forall w k, ~ K k -> store (m w).2 !! k = store w !! k.



(** The prefix under which the snapshots of a user are stored. *)
Definition snapshot_prefix (userId : string) : string :=
  RedisCacheService.getPortfolioSnapshotKey Undefined userId.

(** One request to the service. *)
Inductive Request : Type :=
| Get (key : string)
| GetKeys (prefix : optional string)
| IsHealthy
| Remove (key : string)
| RemovePortfolioSnapshotsByUserId (userId : string)
| Reset
| Set_ (key value : string) (ttl : optional Z).

Definition serve (r : Request) (w : World) : World :=
  match r with
  | Get key => after (RedisCacheService.get key) w
  | GetKeys prefix => after (RedisCacheService.getKeys prefix) w
  | IsHealthy => after RedisCacheService.isHealthy w
  | Remove key => after (RedisCacheService.remove key) w
  | RemovePortfolioSnapshotsByUserId userId =>
      after (RedisCacheService.removePortfolioSnapshotsByUserId userId) w
  | Reset => after RedisCacheService.reset w
  | Set_ key value ttl => after (RedisCacheService.set key value ttl) w
  end.

Definition serve_all (requests : list Request) (w : World) : World :=
  fold_left (fun w0 r => serve r w0) requests w.

(** The requests that neither delete [key] nor write it anew: a removal of
    another key, an invalidation under a prefix [key] does not start with,
    a health check when [key] is not the sentinel key, a [set] of another
    key, and every read. *)
Definition spares (key : string) (r : Request) : Prop :=
  match r with
  | Get _ | GetKeys _ => True
  | IsHealthy => RedisCacheService.testKey <> key
  | Remove k => k <> key
  | RemovePortfolioSnapshotsByUserId userId => startsWith key (snapshot_prefix userId) = false
  | Reset => False
  | Set_ k _ _ => k <> key
  end.

(** [quiet m]: started outside a race, [m] ends outside a race. *)
Definition quiet {A : Type} (m : Async A) : Prop :=
  forall w, timer w = None -> timer (m w).2 = None.

(** The digits of a hexadecimal digest. *)
Definition hex_alphabet : list ascii :=
  ["0"; "1"; "2"; "3"; "4"; "5"; "6"; "7"; "8"; "9"; "a"; "b"; "c"; "d"; "e"; "f"]%char.

Definition lower_hex (c : ascii) : Prop := c ∈ hex_alphabet.

(** All the strings of [n] hexadecimal digits. *)
Fixpoint hex_strings (n : nat) : list string :=
  match n with
  | O => [EmptyString]
  | S n' => flat_map (fun c => map (String c) (hex_strings n')) hex_alphabet
  end.

(** Orderings of one collection of filters: [n] pairs of the same two
    filters, each pair in one of its two orders. *)
Definition filter_a : Filter := JObject [("a"%string, JNumber 1)].
Definition filter_b : Filter := JObject [("b"%string, JNumber 2)].

Definition ordered_pair (swap : bool) : list Filter :=
  if swap then [filter_b; filter_a] else [filter_a; filter_b].

Definition arrangement (swaps : list bool) : list Filter := flat_map ordered_pair swaps.

Fixpoint vectors (n : nat) : list (list bool) :=
  match n with
  | O => [[]]
  | S n' => map (cons false) (vectors n') ++ map (cons true) (vectors n')
  end.

(** The digest that enters the key of a non-empty filter list. *)
Definition filters_digest (filters : list Filter) : string :=
  SHA256.sha256_hex (Json.stringify (JArray filters)).


(** ** Worked values *)

Example sha256_constants :
  nth 0 SHA256.K 0%Z = 0x428a2f98%Z /\ nth 63 SHA256.K 0%Z = 0xc67178f2%Z
  /\ length SHA256.K = 64
  /\ SHA256.sa SHA256.H0 = 0x6a09e667%Z /\ SHA256.sh SHA256.H0 = 0x5be0cd19%Z.
Proof. vm_compute. repeat split; reflexivity. Qed.

Example sha256_empty :
  SHA256.sha256_hex EmptyString
  = "e3b0c44298fc1c149afbf4c8996fb92427ae41e4649b934ca495991b7852b855"%string.
Proof. vm_compute. reflexivity. Qed.

Example sha256_abc :
  SHA256.sha256_hex "abc"
  = "ba7816bf8f01cfea414140de5dae2223b00361a396177a9cb410ff61f20015ad"%string.
Proof. vm_compute. reflexivity. Qed.

Example quote_key_yahoo : RedisCacheService.getQuoteKey "YAHOO" "AAPL" = "quote-YAHOO:AAPL"%string.
Proof. reflexivity. Qed.

Example snapshot_key_u1 :
  RedisCacheService.getPortfolioSnapshotKey Undefined "u1" = "portfolio-snapshot-u1"%string.
Proof. reflexivity. Qed.

Example snapshot_key_u1_a1 :
  RedisCacheService.getPortfolioSnapshotKey (Given [JObject [("a"%string, JNumber 1)]]) "u1"
  = ("portfolio-snapshot-u1-"
     +:+ "b713f6d2a989e907c58516a7c8bb487792c8785ddbf367b80dc774bf33b85a85")%string.
Proof. vm_compute. reflexivity. Qed.



(** ** Facts about the client *)

(** Every call to the client is recorded, whatever the store answers. *)
Lemma client_call_calls {A : Type} (c : Call) (reply : Z -> World -> A * World) w :
  (forall t w0, calls (reply t w0).2 = calls w0) ->
  calls (client_call c reply w).2 = calls w ++ [c].
Proof.
  intros Hreply. unfold client_call.
  destruct (next_link w) as [d|d e|n e|]; simpl.
  - destruct (timer_first w _); simpl; [reflexivity|].
    specialize (Hreply (now w) (with_now (now w + Z.of_N d) (issue c w))).
    destruct (reply _ _) as [a w2]; simpl in *. exact Hreply.
  - destruct (timer_first w _); reflexivity.
  - reflexivity.
  - reflexivity.
Qed.

Lemma set_calls key value ttl w :
  calls (Client.set key value ttl w).2 = calls w ++ [CallSet key value ttl].
Proof. apply client_call_calls. reflexivity. Qed.

Lemma get_calls key w : calls (Client.get key w).2 = calls w ++ [CallGet key].
Proof. apply client_call_calls. reflexivity. Qed.

Lemma delete_calls key w : calls (Client.delete key w).2 = calls w ++ [CallDelete key].
Proof. apply client_call_calls. reflexivity. Qed.

Lemma deleteMany_calls keys w :
  calls (Client.deleteMany keys w).2 = calls w ++ [CallDeleteMany keys].
Proof. apply client_call_calls. reflexivity. Qed.

(** A call the store serves, outside any race, takes effect [delay]
    milliseconds later. *)
Lemma client_call_served {A : Type} (c : Call) (reply : Z -> World -> A * World) w delay :
  next_link w = Up delay -> timer w = None ->
  client_call c reply w
  = let r := reply (now w) (with_now (now w + Z.of_N delay) (issue c w)) in
    (Returned r.1, r.2).
Proof.
  intros Hlink Htimer. unfold client_call, timer_first. rewrite Hlink, Htimer.
  destruct (reply _ _); reflexivity.
Qed.

(** ** Keys *)

(** C4. [getQuoteKey] returns [quote-{dataSource}:{symbol}], for instance
    [quote-YAHOO:AAPL] for YAHOO and AAPL, and equal arguments give equal
    keys. *)
Theorem getQuoteKey_format :
  (forall dataSource symbol,
      RedisCacheService.getQuoteKey dataSource symbol
      = "quote-" +:+ dataSource +:+ ":" +:+ symbol)
  /\ RedisCacheService.getQuoteKey "YAHOO" "AAPL" = "quote-YAHOO:AAPL"%string
  /\ (forall dataSource symbol dataSource' symbol',
         dataSource = dataSource' -> symbol = symbol' ->
         RedisCacheService.getQuoteKey dataSource symbol
         = RedisCacheService.getQuoteKey dataSource' symbol').
Proof.
  split; [|split].
  - reflexivity.
  - reflexivity.
  - intros; subst; reflexivity.
Qed.

Lemma getQuoteKey_format_witness :
  RedisCacheService.getQuoteKey "YAHOO" "AAPL"
  = RedisCacheService.getQuoteKey ("YA" +:+ "HOO") ("AA" +:+ "PL").
Proof.
  apply (proj2 (proj2 getQuoteKey_format) "YAHOO" "AAPL" ("YA" +:+ "HOO") ("AA" +:+ "PL"));
    reflexivity.
Defined.

(** ** The time-to-live of [set] *)

Lemma set_passes_ttl key value ttl w :
  calls (RedisCacheService.set key value ttl w).2
  = calls w ++ [CallSet key value (effective_ttl ttl w)].
Proof.
  unfold RedisCacheService.set. rewrite set_calls. destruct ttl; reflexivity.
Qed.

Lemma set_served key value ttl w delay :
  next_link w = Up delay -> timer w = None ->
  RedisCacheService.set key value ttl w
  = (Returned tt,
     with_store (Store.set (now w) key value (effective_ttl ttl w) (store w))
       (with_now (now w + Z.of_N delay) (issue (CallSet key value (effective_ttl ttl w)) w))).
Proof.
  intros Hlink Htimer. unfold RedisCacheService.set, Client.set.
  rewrite (client_call_served _ _ _ _ Hlink Htimer). destruct ttl; reflexivity.
Qed.

(** C7. Without a ttl argument [set] hands the configured [CACHE_TTL] to
    the client and the entry is stored with it; with a ttl argument that ttl
    is handed over and stored instead. *)
Theorem set_default_ttl (key value : string) (w : World) :
  calls (RedisCacheService.set key value Undefined w).2
  = calls w ++ [CallSet key value (CACHE_TTL w)]
  /\ (forall ttl, calls (RedisCacheService.set key value (Given ttl) w).2
                  = calls w ++ [CallSet key value ttl])
  /\ (forall delay, next_link w = Up delay -> timer w = None ->
        (RedisCacheService.set key value Undefined w).1 = Returned tt
        /\ store (RedisCacheService.set key value Undefined w).2 !! key
           = Some {| entry_value := value;
                     entry_expires := expires_at (now w) (CACHE_TTL w) |}
        /\ forall ttl,
            (RedisCacheService.set key value (Given ttl) w).1 = Returned tt
            /\ store (RedisCacheService.set key value (Given ttl) w).2 !! key
               = Some {| entry_value := value;
                         entry_expires := expires_at (now w) ttl |}).
Proof.
  split; [|split].
  - apply set_passes_ttl.
  - intros ttl. apply set_passes_ttl.
  - intros delay Hlink Htimer.
    rewrite (set_served _ _ Undefined _ _ Hlink Htimer). simpl.
    split; [reflexivity|]. split.
    + unfold Store.set. apply lookup_insert_eq.
    + intros ttl. rewrite (set_served _ _ (Given ttl) _ _ Hlink Htimer). simpl.
      split; [reflexivity|]. unfold Store.set. apply lookup_insert_eq.
Qed.

Lemma set_default_ttl_witness :
  (RedisCacheService.set "quote-YAHOO:AAPL" "187.2" Undefined
     (fresh 1700000000000 60000 [Up 5])).1 = Returned tt
  /\ store (RedisCacheService.set "quote-YAHOO:AAPL" "187.2" Undefined
              (fresh 1700000000000 60000 [Up 5])).2 !! "quote-YAHOO:AAPL"
     = Some {| entry_value := "187.2"; entry_expires := Some 1700000060000%Z |}.
Proof.
  destruct (proj2 (proj2 (set_default_ttl "quote-YAHOO:AAPL" "187.2"
                            (fresh 1700000000000 60000 [Up 5]))) 5%N)
    as (Hreturned & Hstored & _).
  - reflexivity.
  - reflexivity.
  - split; [exact Hreturned|exact Hstored].
Defined.

(** C10. Only an omitted, [undefined] or [null] ttl is replaced by the
    configured default: an explicit ttl, 0 included, reaches the client
    unchanged. *)
Theorem set_nullish_ttl (key value : string) (w : World) :
  calls (RedisCacheService.set key value Undefined w).2
  = calls w ++ [CallSet key value (CACHE_TTL w)]
  /\ calls (RedisCacheService.set key value Null w).2
     = calls w ++ [CallSet key value (CACHE_TTL w)]
  /\ calls (RedisCacheService.set key value (Given 0%Z) w).2
     = calls w ++ [CallSet key value 0%Z]
  /\ (forall ttl, calls (RedisCacheService.set key value (Given ttl) w).2
                  = calls w ++ [CallSet key value ttl]).
Proof.
  repeat split; intros; apply set_passes_ttl.
Qed.

(** ** Enumeration by prefix *)

Lemma startsWith_empty key : startsWith key EmptyString = true.
Proof. unfold startsWith. destruct key; reflexivity. Qed.

Lemma selected_startsWith p key :
  RedisCacheService.selected (Given p) key = true -> startsWith key p = true.
Proof.
  unfold RedisCacheService.selected. destruct p as [|c p]; simpl.
  - intros _. apply startsWith_empty.
  - rewrite orb_false_r. trivial.
Qed.

(** The loop only ever pushes selected keys. *)
Lemma for_await_selected prefix s keys :
  Forall (fun k => RedisCacheService.selected prefix k = true) keys ->
  Forall (fun k => RedisCacheService.selected prefix k = true)
         (RedisCacheService.for_await prefix s keys).1.
Proof.
  revert keys. induction s as [|key value rest IH|e|]; intros keys Hkeys; simpl; trivial.
  apply IH. destruct (RedisCacheService.selected prefix key) eqn:Hsel; trivial.
  apply Forall_app; split; [trivial|]. constructor; [exact Hsel|constructor].
Qed.

(** Over a list of entries the loop is a filter. *)
Lemma for_await_stream_of prefix l last keys :
  RedisCacheService.for_await prefix (stream_of l last) keys
  = RedisCacheService.for_await prefix last
      (keys ++ List.filter (RedisCacheService.selected prefix) l.*1).
Proof.
  revert keys. induction l as [|[k v] l IH]; intros keys; simpl.
  - rewrite app_nil_r. reflexivity.
  - rewrite IH. destruct (RedisCacheService.selected prefix k); simpl.
    + rewrite <- app_assoc. reflexivity.
    + reflexivity.
Qed.

(** What [getKeys] answers, by what the store does with the enumeration. *)
Lemma getKeys_served prefix w delay :
  next_link w = Up delay ->
  RedisCacheService.getKeys prefix w
  = (Returned (List.filter (RedisCacheService.selected prefix)
                 (Store.entries (now w + Z.of_N delay) (store w)).*1),
     with_now (now w + Z.of_N delay) (issue CallIterator w)).
Proof.
  intros Hlink. unfold RedisCacheService.getKeys, Client.iterator. rewrite Hlink.
  cbv zeta. rewrite for_await_stream_of. reflexivity.
Qed.

Lemma getKeys_broken prefix w served error :
  next_link w = Breaks served error ->
  RedisCacheService.getKeys prefix w
  = (Returned (List.filter (RedisCacheService.selected prefix)
                 (firstn served (Store.entries (now w) (store w))).*1),
     on_client_error error (issue CallIterator w)).
Proof.
  intros Hlink. unfold RedisCacheService.getKeys, Client.iterator. rewrite Hlink.
  cbv zeta. rewrite for_await_stream_of. reflexivity.
Qed.

Lemma getKeys_refused prefix w delay error :
  next_link w = Down delay error ->
  RedisCacheService.getKeys prefix w
  = (Returned [],
     on_client_error error (with_now (now w + Z.of_N delay) (issue CallIterator w))).
Proof.
  intros Hlink. unfold RedisCacheService.getKeys, Client.iterator. rewrite Hlink.
  reflexivity.
Qed.

Lemma getKeys_stalled prefix w :
  next_link w = Stalled ->
  RedisCacheService.getKeys prefix w = (Pending, abandon CallIterator (issue CallIterator w)).
Proof.
  intros Hlink. unfold RedisCacheService.getKeys, Client.iterator. rewrite Hlink.
  reflexivity.
Qed.

Lemma getKeys_never_throws prefix w error w' :
  RedisCacheService.getKeys prefix w <> (Thrown error, w').
Proof.
  unfold RedisCacheService.getKeys. destruct (Client.iterator w) as [s w1].
  destruct (RedisCacheService.for_await prefix s []) as [keys [[]|e|]]; discriminate.
Qed.

Lemma getKeys_all_selected prefix w keys w' :
  RedisCacheService.getKeys prefix w = (Returned keys, w') ->
  Forall (fun k => RedisCacheService.selected prefix k = true) keys.
Proof.
  unfold RedisCacheService.getKeys. destruct (Client.iterator w) as [s w1].
  pose proof (for_await_selected prefix s [] (List.Forall_nil _)) as Hsel.
  destruct (RedisCacheService.for_await prefix s []) as [ks [[]|e|]];
    simpl in Hsel; intros Heq; inversion Heq; subst; exact Hsel.
Qed.

(** With a string prefix the test of the loop is [startsWith]. *)
Lemma selected_Given p key :
  RedisCacheService.selected (Given p) key = startsWith key p.
Proof.
  unfold RedisCacheService.selected. destruct p as [|c p]; simpl.
  - rewrite startsWith_empty. reflexivity.
  - apply orb_false_r.
Qed.

Lemma filter_selected_Given p (l : list string) :
  List.filter (RedisCacheService.selected (Given p)) l
  = List.filter (fun k => startsWith k p) l.
Proof.
  induction l as [|k l IH]; simpl; [reflexivity|].
  rewrite selected_Given, IH. reflexivity.
Qed.

(** C3. Every key [getKeys] returns for a prefix starts with that prefix;
    when the enumeration fails, at the start or after some entries,
    [getKeys] does not raise and returns exactly the keys starting with the
    prefix among the entries delivered before the failure, in the order
    delivered; when the enumeration is served to its end it returns those
    among all the entries. *)
Theorem getKeys_prefix_and_failure :
  (forall w p keys w',
      RedisCacheService.getKeys (Given p) w = (Returned keys, w') ->
      forall k, k ∈ keys -> startsWith k p = true)
  /\ (forall w p served error,
         next_link w = Breaks served error ->
         (RedisCacheService.getKeys (Given p) w).1
         = Returned (List.filter (fun k => startsWith k p)
                       (firstn served (Store.entries (now w) (store w))).*1))
  /\ (forall w p delay,
         next_link w = Up delay ->
         (RedisCacheService.getKeys (Given p) w).1
         = Returned (List.filter (fun k => startsWith k p)
                       (Store.entries (now w + Z.of_N delay) (store w)).*1))
  /\ (forall w prefix delay error,
         next_link w = Down delay error ->
         (RedisCacheService.getKeys prefix w).1 = Returned [])
  /\ (forall w prefix error w', RedisCacheService.getKeys prefix w <> (Thrown error, w')).
Proof.
  split; [|split; [|split; [|split]]].
  - intros w p keys w' Hget k Hk.
    apply getKeys_all_selected in Hget. rewrite Forall_forall in Hget.
    apply selected_startsWith. apply Hget. exact Hk.
  - intros w p served error Hlink. rewrite (getKeys_broken _ _ _ _ Hlink). simpl.
    rewrite filter_selected_Given. reflexivity.
  - intros w p delay Hlink. rewrite (getKeys_served _ _ _ Hlink). simpl.
    rewrite filter_selected_Given. reflexivity.
  - intros w prefix delay error Hlink. rewrite (getKeys_refused _ _ _ _ Hlink). reflexivity.
  - intros. apply getKeys_never_throws.
Qed.

Lemma getKeys_prefix_and_failure_witness :
  (RedisCacheService.getKeys (Given "portfolio-snapshot-u1")
     (after (RedisCacheService.set "portfolio-snapshot-u1" "a" Undefined)
        (after (RedisCacheService.set "portfolio-snapshot-u1-abc" "b" Undefined)
           (after (RedisCacheService.set "quote-YAHOO:AAPL" "187.2" Undefined)
              (fresh 0 60000 [Up 0; Up 0; Up 0; Breaks 2 "ECONNRESET"]))))).1
  = Returned ["portfolio-snapshot-u1-abc"%string].
Proof.
  rewrite (proj1 (proj2 getKeys_prefix_and_failure)
             (after (RedisCacheService.set "portfolio-snapshot-u1" "a" Undefined)
                (after (RedisCacheService.set "portfolio-snapshot-u1-abc" "b" Undefined)
                   (after (RedisCacheService.set "quote-YAHOO:AAPL" "187.2" Undefined)
                      (fresh 0 60000 [Up 0; Up 0; Up 0; Breaks 2 "ECONNRESET"]))))
             "portfolio-snapshot-u1"%string 2 "ECONNRESET"%string eq_refl).
  vm_compute. reflexivity.
Defined.

(** ** Facts about the store *)

Lemma lookup_deleteMany keys (m : gmap string Entry) k :
  Store.deleteMany keys m !! k = if decide (k ∈ keys) then None else m !! k.
Proof.
  unfold Store.deleteMany. induction keys as [|key keys IH]; simpl.
  - destruct (decide (k ∈ [])) as [H|H]; [inversion H|reflexivity].
  - destruct (decide (key = k)) as [->|Hne].
    + rewrite lookup_delete_eq. rewrite decide_True; [reflexivity|]. left.
    + rewrite lookup_delete_ne by exact Hne. rewrite IH.
      destruct (decide (k ∈ keys)) as [H|H].
      * rewrite decide_True; [reflexivity|]. right. exact H.
      * rewrite decide_False; [reflexivity|]. intros Hin. inversion Hin; subst; contradiction.
Qed.

Lemma elem_of_entries t (m : gmap string Entry) k :
  k ∈ (Store.entries t m).*1 <-> exists e, m !! k = Some e /\ expired t e = false.
Proof.
  unfold Store.entries. rewrite list_elem_of_fmap. split.
  - intros [[k' v] [-> Hin]]. apply list_elem_of_omap in Hin as [[k'' e] [Hin Hf]].
    apply elem_of_map_to_list in Hin. simpl in Hf.
    destruct (expired t e) eqn:Hexp; [discriminate|]. inversion Hf; subst.
    exists e. split; assumption.
  - intros [e [Hm Hexp]]. exists (k, entry_value e). split; [reflexivity|].
    apply list_elem_of_omap. exists (k, e). split.
    + apply elem_of_map_to_list. exact Hm.
    + simpl. rewrite Hexp. reflexivity.
Qed.

Lemma expired_later t t' e : (t <= t')%Z -> expired t e = true -> expired t' e = true.
Proof.
  unfold expired. destruct (entry_expires e); [|discriminate].
  intros Hle H. apply Z.ltb_lt in H. apply Z.ltb_lt. lia.
Qed.

(** ** Which keys an operation can change *)

Lemma frames_client_call {A : Type} (K : string -> Prop) c (reply : Z -> World -> A * World) :
  (forall t w k, ~ K k -> store (reply t w).2 !! k = store w !! k) ->
  frames K (client_call c reply).
Proof.
  intros Hreply w k Hk. unfold client_call.
  destruct (next_link w) as [d|d e|n e|]; simpl; try reflexivity.
  - destruct (timer_first w _); simpl; [reflexivity|].
    specialize (Hreply (now w) (with_now (now w + Z.of_N d) (issue c w)) k Hk).
    destruct (reply _ _) as [a w2]; simpl in *. exact Hreply.
  - destruct (timer_first w _); reflexivity.
Qed.

Lemma frames_await {A B : Type} (K : string -> Prop) (m : Async A) (f : A -> Async B) :
  frames K m -> (forall a, frames K (f a)) -> frames K (await m f).
Proof.
  intros Hm Hf w k Hk. unfold await. specialize (Hm w k Hk).
  destruct (m w) as [[a|e|] w1]; simpl in *; try exact Hm.
  rewrite (Hf a w1 k Hk). exact Hm.
Qed.

Lemma frames_try_catch {A : Type} (K : string -> Prop) (m : Async A) handler :
  frames K m -> (forall e, frames K (handler e)) -> frames K (try_catch m handler).
Proof.
  intros Hm Hh w k Hk. unfold try_catch. specialize (Hm w k Hk).
  destruct (m w) as [[a|e|] w1]; simpl in *; try exact Hm.
  rewrite (Hh e w1 k Hk). exact Hm.
Qed.

Lemma frames_try_finally {A : Type} (K : string -> Prop) (m : Async A) cleanup :
  frames K m -> frames K cleanup -> frames K (try_finally m cleanup).
Proof.
  intros Hm Hc w k Hk. unfold try_finally. specialize (Hm w k Hk).
  destruct (m w) as [[a|e|] w1]; simpl in *; try exact Hm;
    specialize (Hc w1 k Hk); destruct (cleanup w1) as [[[]|e'|] w2]; simpl in *;
    rewrite Hc; exact Hm.
Qed.

Lemma frames_race_timeout {A : Type} (K : string -> Prop) (m : Async A) ms error :
  frames K m -> frames K (race_timeout m ms error).
Proof.
  intros Hm w k Hk. unfold race_timeout.
  specialize (Hm (with_timer (Some (now w + ms)%Z) w) k Hk).
  destruct (m _) as [[a|e|] w1]; simpl in *; exact Hm.
Qed.

Lemma frames_resolve {A : Type} (K : string -> Prop) (a : A) : frames K (resolve a).
Proof. intros w k _. reflexivity. Qed.

Lemma frames_throw {A : Type} (K : string -> Prop) error : frames K (@throw A error).
Proof. intros w k _. reflexivity. Qed.

Lemma frames_get K key : frames K (Client.get key).
Proof. apply frames_client_call. reflexivity. Qed.

Lemma frames_set key value ttl : frames (eq key) (Client.set key value ttl).
Proof.
  apply frames_client_call. intros t w k Hk. simpl. unfold Store.set.
  apply lookup_insert_ne. exact Hk.
Qed.

Lemma frames_delete key : frames (eq key) (Client.delete key).
Proof.
  apply frames_client_call. intros t w k Hk. simpl. apply lookup_delete_ne. exact Hk.
Qed.

Lemma frames_deleteMany keys : frames (fun k => k ∈ keys) (Client.deleteMany keys).
Proof.
  apply frames_client_call. intros t w k Hk. simpl. rewrite lookup_deleteMany.
  rewrite decide_False by exact Hk. reflexivity.
Qed.

Lemma iterator_store w : store (Client.iterator w).2 = store w.
Proof. unfold Client.iterator. destruct (next_link w); reflexivity. Qed.

Lemma iterator_calls w : calls (Client.iterator w).2 = calls w ++ [CallIterator].
Proof. unfold Client.iterator. destruct (next_link w); reflexivity. Qed.

Lemma getKeys_world prefix w : (RedisCacheService.getKeys prefix w).2 = (Client.iterator w).2.
Proof.
  unfold RedisCacheService.getKeys. destruct (Client.iterator w) as [s w1].
  destruct (RedisCacheService.for_await prefix s []) as [keys [[]|e|]]; reflexivity.
Qed.

Lemma frames_getKeys K prefix : frames K (RedisCacheService.getKeys prefix).
Proof. intros w k _. rewrite getKeys_world, iterator_store. reflexivity. Qed.

Lemma frames_removePortfolioSnapshotsByUserId userId :
  frames (fun k => startsWith k (snapshot_prefix userId) = true)
         (RedisCacheService.removePortfolioSnapshotsByUserId userId).
Proof.
  intros w k Hk. unfold RedisCacheService.removePortfolioSnapshotsByUserId, await.
  fold (snapshot_prefix userId).
  pose proof (getKeys_all_selected (Given (snapshot_prefix userId)) w) as Hsel.
  pose proof (frames_getKeys (fun _ => False) (Given (snapshot_prefix userId)) w k) as Hst.
  destruct (RedisCacheService.getKeys _ w) as [[keys|e|] w1]; simpl in *;
    try (apply Hst; tauto).
  rewrite frames_deleteMany; [apply Hst; tauto|].
  intros Hin. apply Hk. specialize (Hsel keys w1 eq_refl).
  rewrite Forall_forall in Hsel. apply selected_startsWith, Hsel, Hin.
Qed.

(** ** Invalidation of a user's portfolio snapshots *)

Lemma startsWith_selected p key :
  startsWith key p = true -> RedisCacheService.selected (Given p) key = true.
Proof.
  unfold RedisCacheService.selected. destruct p as [|c p]; simpl.
  - reflexivity.
  - intros ->. reflexivity.
Qed.

Lemma elem_of_selected_entries prefix t (m : gmap string Entry) k :
  k ∈ List.filter (RedisCacheService.selected prefix) (Store.entries t m).*1
  <-> RedisCacheService.selected prefix k = true
      /\ exists e, m !! k = Some e /\ expired t e = false.
Proof.
  rewrite list_elem_of_In, filter_In, <- list_elem_of_In, elem_of_entries. tauto.
Qed.

Lemma getKeys_calls prefix w :
  calls (RedisCacheService.getKeys prefix w).2 = calls w ++ [CallIterator].
Proof. rewrite getKeys_world. apply iterator_calls. Qed.

(** The one call to [deleteMany] carries the keys [getKeys] returned. *)
Lemma removePortfolioSnapshotsByUserId_calls userId w keys w1 :
  RedisCacheService.getKeys (Given (snapshot_prefix userId)) w = (Returned keys, w1) ->
  calls (RedisCacheService.removePortfolioSnapshotsByUserId userId w).2
  = calls w ++ [CallIterator; CallDeleteMany keys].
Proof.
  intros Hget. unfold RedisCacheService.removePortfolioSnapshotsByUserId, await.
  fold (snapshot_prefix userId).
  pose proof (getKeys_calls (Given (snapshot_prefix userId)) w) as Hcalls.
  rewrite Hget in *. simpl in Hcalls.
  rewrite deleteMany_calls, Hcalls, <- app_assoc. reflexivity.
Qed.

(** With a store that serves both calls. *)
Lemma removePortfolioSnapshotsByUserId_served userId w d1 d2 rest :
  links w = Up d1 :: Up d2 :: rest -> timer w = None ->
  let t1 := (now w + Z.of_N d1)%Z in
  let keys := List.filter (RedisCacheService.selected (Given (snapshot_prefix userId)))
                (Store.entries t1 (store w)).*1 in
  (RedisCacheService.removePortfolioSnapshotsByUserId userId w).1 = Returned tt
  /\ store (RedisCacheService.removePortfolioSnapshotsByUserId userId w).2
     = Store.deleteMany keys (store w)
  /\ now (RedisCacheService.removePortfolioSnapshotsByUserId userId w).2
     = (t1 + Z.of_N d2)%Z.
Proof.
  intros Hlinks Htimer t1 keys.
  unfold RedisCacheService.removePortfolioSnapshotsByUserId, await.
  fold (snapshot_prefix userId).
  assert (Hlink : next_link w = Up d1) by (unfold next_link; rewrite Hlinks; reflexivity).
  rewrite (getKeys_served _ _ _ Hlink). fold t1. fold keys.
  unfold Client.deleteMany. erewrite client_call_served.
  - simpl. auto.
  - unfold next_link. simpl. rewrite Hlinks. reflexivity.
  - simpl. exact Htimer.
Qed.

Lemma removePortfolioSnapshotsByUserId_clears userId w d1 d2 rest k :
  links w = Up d1 :: Up d2 :: rest -> timer w = None ->
  startsWith k (snapshot_prefix userId) = true ->
  let w' := (RedisCacheService.removePortfolioSnapshotsByUserId userId w).2 in
  Store.get (now w') k (store w') = None.
Proof.
  intros Hlinks Htimer Hk w'.
  destruct (removePortfolioSnapshotsByUserId_served userId w d1 d2 rest Hlinks Htimer)
    as (_ & Hstore & Hnow).
  subst w'. unfold Store.get. rewrite Hstore, Hnow, lookup_deleteMany.
  destruct (decide _) as [Hin|Hout]; [reflexivity|].
  destruct (store w !! k) as [e|] eqn:Hlook; [|reflexivity].
  destruct (expired (now w + Z.of_N d1) e) eqn:Hexp.
  - rewrite (expired_later (now w + Z.of_N d1) (now w + Z.of_N d1 + Z.of_N d2) e); [reflexivity|lia|exact Hexp].
  - exfalso. apply Hout. apply elem_of_selected_entries. split.
    + apply startsWith_selected. exact Hk.
    + exists e. split; assumption.
Qed.

(** C5. [removePortfolioSnapshotsByUserId] issues one [deleteMany] with
    exactly the keys [getKeys] enumerated for the prefix
    [portfolio-snapshot-{userId}]; no key outside that prefix is touched;
    when the store serves the calls every key under the prefix is gone; and
    with the three keys of the example, the two of u1 are removed and the
    one of u2 stays. *)
Theorem removePortfolioSnapshotsByUserId_effect :
  (forall userId, snapshot_prefix userId = "portfolio-snapshot-" +:+ userId)
  /\ (forall userId w keys w1,
         RedisCacheService.getKeys (Given (snapshot_prefix userId)) w = (Returned keys, w1) ->
         calls (RedisCacheService.removePortfolioSnapshotsByUserId userId w).2
         = calls w ++ [CallIterator; CallDeleteMany keys])
  /\ (forall userId w k,
         startsWith k (snapshot_prefix userId) = false ->
         store (RedisCacheService.removePortfolioSnapshotsByUserId userId w).2 !! k
         = store w !! k)
  /\ (forall userId w d1 d2 rest k,
         links w = Up d1 :: Up d2 :: rest -> timer w = None ->
         startsWith k (snapshot_prefix userId) = true ->
         let w' := (RedisCacheService.removePortfolioSnapshotsByUserId userId w).2 in
         (RedisCacheService.removePortfolioSnapshotsByUserId userId w).1 = Returned tt
         /\ Store.get (now w') k (store w') = None)
  /\ (let w0 := fresh 0 60000 [] in
      let w1 := after (RedisCacheService.set "portfolio-snapshot-u1" "a" Undefined) w0 in
      let w2 := after (RedisCacheService.set "portfolio-snapshot-u1-abc" "b" Undefined) w1 in
      let w3 := after (RedisCacheService.set "portfolio-snapshot-u2" "c" Undefined) w2 in
      let w4 := after (RedisCacheService.removePortfolioSnapshotsByUserId "u1") w3 in
      (RedisCacheService.get "portfolio-snapshot-u1" w3).1 = Returned (Some "a"%string)
      /\ (RedisCacheService.get "portfolio-snapshot-u1-abc" w3).1 = Returned (Some "b"%string)
      /\ (RedisCacheService.get "portfolio-snapshot-u1" w4).1 = Returned None
      /\ (RedisCacheService.get "portfolio-snapshot-u1-abc" w4).1 = Returned None
      /\ (RedisCacheService.get "portfolio-snapshot-u2" w4).1 = Returned (Some "c"%string)).
Proof.
  split; [|split; [|split; [|split]]].
  - reflexivity.
  - apply removePortfolioSnapshotsByUserId_calls.
  - intros userId w k Hk. apply frames_removePortfolioSnapshotsByUserId.
    rewrite Hk. discriminate.
  - intros userId w d1 d2 rest k Hlinks Htimer Hk w'. split.
    + apply (removePortfolioSnapshotsByUserId_served userId w d1 d2 rest Hlinks Htimer).
    + apply (removePortfolioSnapshotsByUserId_clears userId w d1 d2 rest k Hlinks Htimer Hk).
  - vm_compute. repeat split.
Qed.

Lemma removePortfolioSnapshotsByUserId_effect_witness :
  let w := after (RedisCacheService.set "portfolio-snapshot-u1-abc" "b" Undefined)
             (fresh 0 60000 [Up 0; Up 1; Up 2]) in
  let w' := (RedisCacheService.removePortfolioSnapshotsByUserId "u1" w).2 in
  (RedisCacheService.removePortfolioSnapshotsByUserId "u1" w).1 = Returned tt
  /\ Store.get (now w') "portfolio-snapshot-u1-abc" (store w') = None.
Proof.
  apply (proj1 (proj2 (proj2 (proj2 removePortfolioSnapshotsByUserId_effect))) "u1"%string
           (after (RedisCacheService.set "portfolio-snapshot-u1-abc" "b" Undefined)
              (fresh 0 60000 [Up 0; Up 1; Up 2]))
           1%N 2%N [] "portfolio-snapshot-u1-abc"%string); reflexivity.
Defined.


(** ** User ids that extend another user id *)

Lemma prefix_append (c a b : string) :
  String.prefix a b = true -> String.prefix (c +:+ a) (c +:+ b) = true.
Proof.
  intros H. induction c as [|x c IH]; simpl; [exact H|].
  destruct (ascii_dec x x) as [_|Hne]; [exact IH|contradiction].
Qed.

Lemma prefix_append_r (a b r : string) :
  String.prefix a b = true -> String.prefix a (b +:+ r) = true.
Proof.
  revert a. induction b as [|y b IH]; intros a H.
  - destruct a; [|discriminate]. destruct (EmptyString +:+ r); reflexivity.
  - destruct a as [|x a]; [reflexivity|]. simpl in *.
    destruct (ascii_dec x y); [apply IH; exact H|discriminate].
Qed.

(** Every snapshot key of a user whose id extends [userId] lies under the
    prefix of [userId]. *)
Lemma snapshot_key_under_prefix userId userId' filters :
  String.prefix userId userId' = true ->
  startsWith (RedisCacheService.getPortfolioSnapshotKey filters userId')
             (snapshot_prefix userId) = true.
Proof.
  intros H. unfold startsWith, snapshot_prefix, RedisCacheService.getPortfolioSnapshotKey.
  destruct filters as [| |[|f fs]]; cbv zeta.
  - apply prefix_append; exact H.
  - apply prefix_append; exact H.
  - apply prefix_append; exact H.
  - apply prefix_append_r, prefix_append; exact H.
Qed.

(** C9. Matching is by string prefix on the base key: every snapshot key,
    filtered or not, of a user whose id has [userId] as a prefix lies under
    the prefix of [userId] and is deleted with it; removing the snapshots of
    u1 deletes those of u10. *)
Theorem removePortfolioSnapshotsByUserId_reaches_extensions :
  (forall userId userId' filters,
      String.prefix userId userId' = true ->
      startsWith (RedisCacheService.getPortfolioSnapshotKey filters userId')
                 (snapshot_prefix userId) = true)
  /\ (forall userId userId' filters w d1 d2 rest,
         String.prefix userId userId' = true ->
         links w = Up d1 :: Up d2 :: rest -> timer w = None ->
         let w' := (RedisCacheService.removePortfolioSnapshotsByUserId userId w).2 in
         Store.get (now w') (RedisCacheService.getPortfolioSnapshotKey filters userId')
                   (store w') = None)
  /\ (let filtered :=
        RedisCacheService.getPortfolioSnapshotKey
          (Given [JObject [("a"%string, JNumber 1)]]) "u10" in
      let w0 := fresh 0 60000 [] in
      let w1 := after (RedisCacheService.set "portfolio-snapshot-u10" "x" Undefined) w0 in
      let w2 := after (RedisCacheService.set filtered "y" Undefined) w1 in
      let w3 := after (RedisCacheService.removePortfolioSnapshotsByUserId "u1") w2 in
      (RedisCacheService.get "portfolio-snapshot-u10" w2).1 = Returned (Some "x"%string)
      /\ (RedisCacheService.get filtered w2).1 = Returned (Some "y"%string)
      /\ (RedisCacheService.get "portfolio-snapshot-u10" w3).1 = Returned None
      /\ (RedisCacheService.get filtered w3).1 = Returned None).
Proof.
  split; [|split].
  - apply snapshot_key_under_prefix.
  - intros userId userId' filters w d1 d2 rest Hprefix Hlinks Htimer w'.
    apply (removePortfolioSnapshotsByUserId_clears userId w d1 d2 rest _ Hlinks Htimer).
    apply snapshot_key_under_prefix. exact Hprefix.
  - vm_compute. repeat split.
Qed.

Lemma removePortfolioSnapshotsByUserId_reaches_extensions_witness :
  let w := after (RedisCacheService.set "portfolio-snapshot-u10" "x" Undefined)
             (fresh 0 60000 [Up 0; Up 1; Up 2]) in
  let w' := (RedisCacheService.removePortfolioSnapshotsByUserId "u1" w).2 in
  Store.get (now w') (RedisCacheService.getPortfolioSnapshotKey Undefined "u10") (store w')
  = None.
Proof.
  apply (proj1 (proj2 removePortfolioSnapshotsByUserId_reaches_extensions)
           "u1"%string "u10"%string Undefined
           (after (RedisCacheService.set "portfolio-snapshot-u10" "x" Undefined)
              (fresh 0 60000 [Up 0; Up 1; Up 2]))
           1%N 2%N []); reflexivity.
Defined.


(** ** The health check *)

Lemma race_timeout_settles {A : Type} (m : Async A) ms error w :
  (race_timeout m ms error w).1 <> Pending.
Proof. unfold race_timeout. destruct (m _) as [[a|e|] w1]; discriminate. Qed.

(** The [try] block with its [catch] always completes with a boolean: [true]
    when the race is won by a probe that found its value, [false] with a
    logged message otherwise. *)
Lemma check_outcome testValue w :
  RedisCacheService.check testValue w
  = match race_timeout (RedisCacheService.probe testValue) ms_2_seconds
            "Redis health check failed: timeout" w with
    | (Returned _, w1) => (Returned true, w1)
    | (Thrown error, w1) => (Returned false, with_logged error w1)
    | (Pending, w1) => (Pending, w1)
    end.
Proof.
  unfold RedisCacheService.check, try_catch, await.
  destruct (race_timeout _ _ _ w) as [[a|e|] w1]; reflexivity.
Qed.

Lemma check_returns testValue w :
  exists b, (RedisCacheService.check testValue w).1 = Returned b.
Proof.
  rewrite check_outcome.
  pose proof (race_timeout_settles (RedisCacheService.probe testValue) ms_2_seconds
                "Redis health check failed: timeout" w) as Hrace.
  destruct (race_timeout _ _ _ w) as [[a|e|] w1]; simpl in *; eauto. contradiction.
Qed.

Lemma cleanup_outcome w :
  RedisCacheService.cleanup w
  = match RedisCacheService.remove RedisCacheService.testKey w with
    | (Pending, w') => (Pending, w')
    | (_, w') => (Returned tt, w')
    end.
Proof.
  unfold RedisCacheService.cleanup, try_catch.
  destruct (RedisCacheService.remove _ w) as [[[]|e|] w']; reflexivity.
Qed.

(** The health check: the boolean of the [try] block, handed over once the
    removal of the sentinel key has settled. *)
Lemma isHealthy_outcome w :
  let body := RedisCacheService.check (Json.number (now w)) w in
  RedisCacheService.isHealthy w
  = match RedisCacheService.remove RedisCacheService.testKey body.2 with
    | (Pending, w') => (Pending, w')
    | (_, w') => (body.1, w')
    end.
Proof.
  intros body. unfold RedisCacheService.isHealthy, await, Date_now, try_finally.
  cbv zeta. fold body. destruct (check_returns (Json.number (now w)) w) as [b Hb].
  fold body in Hb. destruct body as [o w1]. simpl in Hb. subst o.
  rewrite cleanup_outcome. simpl.
  destruct (RedisCacheService.remove _ w1) as [[[]|e|] w']; reflexivity.
Qed.

Lemma isHealthy_never_throws w error w' :
  RedisCacheService.isHealthy w <> (Thrown error, w').
Proof.
  rewrite isHealthy_outcome. cbv zeta.
  destruct (check_returns (Json.number (now w)) w) as [b Hb].
  destruct (RedisCacheService.check _ w) as [o w1]. simpl in *. subst o.
  destruct (RedisCacheService.remove _ w1) as [[[]|e|] w2]; discriminate.
Qed.

(** A call that returned was served: its reply took effect. *)
Lemma client_call_returned {A : Type} (c : Call) (reply : Z -> World -> A * World) w a w' :
  client_call c reply w = (Returned a, w') ->
  exists t, reply (now w) (with_now t (issue c w)) = (a, w').
Proof.
  unfold client_call. destruct (next_link w) as [d|d e|n e|].
  - destruct (timer_first w _); [discriminate|].
    destruct (reply _ _) as [a0 w0] eqn:Hreply. intros Heq. inversion Heq; subst.
    eexists. exact Hreply.
  - destruct (timer_first w _); discriminate.
  - discriminate.
  - discriminate.
Qed.

Lemma remove_returned key w w' :
  RedisCacheService.remove key w = (Returned tt, w') -> store w' !! key = None.
Proof.
  intros H. apply client_call_returned in H as [t H]. inversion H; subst.
  simpl. apply lookup_delete_eq.
Qed.

(** What the probe does against the armed timer decides the boolean,
    provided the removal of the sentinel key settles. *)
Lemma isHealthy_settled w o w1 :
  race_timeout (RedisCacheService.probe (Json.number (now w))) ms_2_seconds
    "Redis health check failed: timeout" w = (o, w1) ->
  (RedisCacheService.remove RedisCacheService.testKey
     (RedisCacheService.check (Json.number (now w)) w).2).1 <> Pending ->
  (RedisCacheService.isHealthy w).1
  = Returned (match o with Returned _ => true | _ => false end).
Proof.
  intros Hrace Hremove. rewrite isHealthy_outcome. cbv zeta.
  pose proof (race_timeout_settles (RedisCacheService.probe (Json.number (now w)))
                ms_2_seconds "Redis health check failed: timeout" w) as Hsettles.
  rewrite check_outcome in *. rewrite Hrace in *. simpl in Hsettles.
  destruct o as [[]|e|]; simpl in *; try contradiction;
    destruct (RedisCacheService.remove _ _) as [[[]|e'|] w']; simpl in *;
    try reflexivity; contradiction.
Qed.

(** [isHealthy] returns [true] only after a probe whose [set] and [get]
    were both served before the timer fired and whose [get] read back the
    value written. *)
Lemma isHealthy_true_only_if w :
  (RedisCacheService.isHealthy w).1 = Returned true ->
  let testValue := Json.number (now w) in
  exists w1 w2,
    RedisCacheService.set RedisCacheService.testKey testValue (Given ms_1_second)
      (with_timer (Some (now w + ms_2_seconds)%Z) w) = (Returned tt, w1)
    /\ RedisCacheService.get RedisCacheService.testKey w1 = (Returned (Some testValue), w2).
Proof.
  rewrite isHealthy_outcome. cbv zeta. rewrite check_outcome.
  unfold race_timeout, RedisCacheService.probe, await.
  destruct (RedisCacheService.set _ _ _ _) as [[[]|e|] w1] eqn:Hset.
  - destruct (RedisCacheService.get _ w1) as [[result|e|] w2] eqn:Hget.
    + destruct (decide (result = Some (Json.number (now w)))) as [->|Hne].
      * intros _. exists w1, w2. split; [reflexivity|exact Hget].
      * simpl. destruct (RedisCacheService.remove _ _) as [[[]|e|] w3]; discriminate.
    + simpl. destruct (RedisCacheService.remove _ _) as [[[]|e'|] w3]; discriminate.
    + simpl. destruct (RedisCacheService.remove _ _) as [[[]|e'|] w3]; discriminate.
  - simpl. destruct (RedisCacheService.remove _ _) as [[[]|e'|] w3]; discriminate.
  - simpl. destruct (RedisCacheService.remove _ _) as [[[]|e'|] w3]; discriminate.
Qed.

Lemma isHealthy_world w :
  (RedisCacheService.isHealthy w).2
  = (RedisCacheService.remove RedisCacheService.testKey
       (RedisCacheService.check (Json.number (now w)) w).2).2.
Proof.
  rewrite isHealthy_outcome. cbv zeta.
  destruct (RedisCacheService.remove _ _) as [[[]|e|] w']; reflexivity.
Qed.

(** The branches of the health check, against a store that holds nothing
    at instant 1700000000000: served at once; served, but the value has
    expired when it is read back; the read still pending when the timer
    fires; refused (the log then holds the event of the refused [set], the
    message of the [catch] block and the event of the refused [delete]). *)
Example isHealthy_true :
  (RedisCacheService.isHealthy (fresh 1700000000000 60000 [])).1 = Returned true.
Proof. vm_compute. reflexivity. Qed.

Example isHealthy_mismatch :
  let w := after RedisCacheService.isHealthy (fresh 1700000000000 60000 [Up 100; Up 1500]) in
  (RedisCacheService.isHealthy (fresh 1700000000000 60000 [Up 100; Up 1500])).1
  = Returned false
  /\ logged w = ["Redis health check failed: value mismatch"%string].
Proof. vm_compute. split; reflexivity. Qed.

Example isHealthy_timeout :
  let w := after RedisCacheService.isHealthy (fresh 1700000000000 60000 [Up 100; Up 1900]) in
  (RedisCacheService.isHealthy (fresh 1700000000000 60000 [Up 100; Up 1900])).1
  = Returned false
  /\ logged w = ["Redis health check failed: timeout"%string]
  /\ now w = 1700000002000%Z.
Proof. vm_compute. repeat split; reflexivity. Qed.

Example isHealthy_refused :
  let w := after RedisCacheService.isHealthy
             (fresh 1700000000000 60000 [Down 3 "ECONNREFUSED"; Down 3 "ECONNREFUSED"]) in
  (RedisCacheService.isHealthy
     (fresh 1700000000000 60000 [Down 3 "ECONNREFUSED"; Down 3 "ECONNREFUSED"])).1
  = Returned false
  /\ logged w = ["ECONNREFUSED"%string; "ECONNREFUSED"%string; "ECONNREFUSED"%string].
Proof. vm_compute. split; reflexivity. Qed.

(** C2. Against a store that leaves every call pending, the timer fires
    first and the [catch] block decides [false], but the removal of the
    sentinel key in the [finally] block is awaited without a timer:
    [isHealthy] stays pending and hands no boolean to its caller. *)
Theorem isHealthy_pending_on_stalled_store (w : World) (rest : list Link) :
  links w = Stalled :: Stalled :: rest ->
  (RedisCacheService.check (Json.number (now w)) w).1 = Returned false
  /\ (RedisCacheService.isHealthy w).1 = Pending.
Proof.
  intros Hlinks.
  assert (Hcheck : RedisCacheService.check (Json.number (now w)) w
                   = (Returned false,
                      with_logged "Redis health check failed: timeout"
                        (with_timer None
                           (abandon (CallSet RedisCacheService.testKey (Json.number (now w))
                                       ms_1_second)
                              (issue (CallSet RedisCacheService.testKey
                                        (Json.number (now w)) ms_1_second)
                                 (with_timer (Some (now w + ms_2_seconds)%Z) w)))))).
  { rewrite check_outcome.
    unfold race_timeout, RedisCacheService.probe, await, RedisCacheService.set,
      Client.set, client_call, next_link.
    simpl. rewrite Hlinks. reflexivity. }
  split.
  - rewrite Hcheck. reflexivity.
  - rewrite isHealthy_outcome. cbv zeta. rewrite Hcheck.
    unfold RedisCacheService.remove, Client.delete, client_call, next_link.
    simpl. rewrite Hlinks. reflexivity.
Qed.

Lemma isHealthy_pending_on_stalled_store_witness :
  (RedisCacheService.check (Json.number 1700000000000)
     (fresh 1700000000000 60000 [Stalled; Stalled])).1 = Returned false
  /\ (RedisCacheService.isHealthy (fresh 1700000000000 60000 [Stalled; Stalled])).1 = Pending.
Proof.
  apply (isHealthy_pending_on_stalled_store (fresh 1700000000000 60000 [Stalled; Stalled]) []).
  reflexivity.
Defined.

(** C6. Whatever the [try] block decided, [isHealthy] then asks the client
    to delete the sentinel key: the [delete] follows the calls issued up to
    the end of the [try]/[catch] (a probe the timer overtook is not
    cancelled, so calls of it may come later); when that removal settles,
    by success or by failure, the caller gets the boolean of the [try]
    block, and never an exception; after a successful check whose removal
    succeeded the sentinel key is absent. *)
Theorem isHealthy_cleanup :
  (forall w,
      exists later,
        calls (RedisCacheService.isHealthy w).2
        = calls (RedisCacheService.check (Json.number (now w)) w).2
          ++ CallDelete "__health_check__" :: later)
  /\ (forall w o w',
         RedisCacheService.remove RedisCacheService.testKey
           (RedisCacheService.check (Json.number (now w)) w).2 = (o, w') ->
         o <> Pending ->
         RedisCacheService.isHealthy w
         = ((RedisCacheService.check (Json.number (now w)) w).1, w')
         /\ exists b, (RedisCacheService.check (Json.number (now w)) w).1 = Returned b)
  /\ (forall w error w', RedisCacheService.isHealthy w <> (Thrown error, w'))
  /\ (forall w w',
         (RedisCacheService.check (Json.number (now w)) w).1 = Returned true ->
         RedisCacheService.remove RedisCacheService.testKey
           (RedisCacheService.check (Json.number (now w)) w).2 = (Returned tt, w') ->
         RedisCacheService.isHealthy w = (Returned true, w')
         /\ store w' !! "__health_check__" = None)
  /\ (let w := after RedisCacheService.isHealthy (fresh 1700000000000 60000 []) in
      (RedisCacheService.isHealthy (fresh 1700000000000 60000 [])).1 = Returned true
      /\ store w !! "__health_check__" = None
      /\ (RedisCacheService.get "__health_check__" w).1 = Returned None).
Proof.
  split; [|split; [|split; [|split]]].
  - intros w. exists []. rewrite isHealthy_world. apply delete_calls.
  - intros w o w' Hremove Hsettled. split; [|apply check_returns].
    rewrite isHealthy_outcome. cbv zeta. rewrite Hremove.
    destruct o as [[]|e|]; [reflexivity|reflexivity|contradiction].
  - apply isHealthy_never_throws.
  - intros w w' Hcheck Hremove. split.
    + rewrite isHealthy_outcome. cbv zeta. rewrite Hremove, Hcheck. reflexivity.
    + apply (remove_returned _ _ _ Hremove).
  - vm_compute. repeat split.
Qed.

Lemma isHealthy_cleanup_witness :
  RedisCacheService.isHealthy (fresh 1700000000000 60000 [Up 5; Up 5; Down 2 "ECONNRESET"])
  = (Returned true,
     (RedisCacheService.remove RedisCacheService.testKey
        (RedisCacheService.check (Json.number 1700000000000)
           (fresh 1700000000000 60000 [Up 5; Up 5; Down 2 "ECONNRESET"])).2).2).
Proof.
  apply (proj1 (proj2 isHealthy_cleanup) (fresh 1700000000000 60000 [Up 5; Up 5; Down 2 "ECONNRESET"])
               (Thrown "ECONNRESET")).
  - vm_compute. reflexivity.
  - discriminate.
Defined.

(** ** Round trip of [set] and [get] *)

Lemma frames_service_set key value ttl :
  frames (eq key) (RedisCacheService.set key value ttl).
Proof. intros w k Hk. unfold RedisCacheService.set. apply frames_set. exact Hk. Qed.

Lemma frames_Logger_error K message : frames K (Logger_error message).
Proof. intros w k _. reflexivity. Qed.

Lemma frames_probe testValue :
  frames (eq RedisCacheService.testKey) (RedisCacheService.probe testValue).
Proof.
  unfold RedisCacheService.probe. apply frames_await.
  - apply frames_service_set.
  - intros _. apply frames_await; [apply frames_get|].
    intros result. destruct (decide _); [apply frames_resolve|apply frames_throw].
Qed.

Lemma frames_isHealthy : frames (eq RedisCacheService.testKey) RedisCacheService.isHealthy.
Proof.
  unfold RedisCacheService.isHealthy. apply frames_await.
  - intros w k _. reflexivity.
  - intros instant. apply frames_try_finally.
    + unfold RedisCacheService.check. apply frames_try_catch.
      * apply frames_await; [|intros _; apply frames_resolve].
        apply frames_race_timeout, frames_probe.
      * intros e. apply frames_await; [apply frames_Logger_error|].
        intros _. apply frames_resolve.
    + unfold RedisCacheService.cleanup. apply frames_try_catch.
      * apply frames_delete.
      * intros _. apply frames_resolve.
Qed.

(** A request that spares a key leaves its entry as it was. *)
Lemma serve_spares key r w : spares key r -> store (serve r w) !! key = store w !! key.
Proof.
  destruct r as [k|prefix| |k|userId| |k v ttl]; simpl; unfold after; intros Hspares.
  - apply (frames_get (fun _ => False)). tauto.
  - apply (frames_getKeys (fun _ => False)). tauto.
  - apply frames_isHealthy. exact Hspares.
  - apply frames_delete. exact Hspares.
  - apply frames_removePortfolioSnapshotsByUserId. rewrite Hspares. discriminate.
  - contradiction.
  - apply frames_service_set. exact Hspares.
Qed.

Lemma quiet_client_call {A : Type} c (reply : Z -> World -> A * World) :
  (forall t w, timer (reply t w).2 = timer w) -> quiet (client_call c reply).
Proof.
  intros Hreply w Hw. unfold client_call.
  destruct (next_link w) as [d|d e|n e|]; simpl; try exact Hw.
  - destruct (timer_first w _); simpl; [exact Hw|].
    specialize (Hreply (now w) (with_now (now w + Z.of_N d) (issue c w))).
    destruct (reply _ _) as [a w2]; simpl in *. rewrite Hreply. exact Hw.
  - destruct (timer_first w _); exact Hw.
Qed.

Lemma quiet_await {A B : Type} (m : Async A) (f : A -> Async B) :
  quiet m -> (forall a, quiet (f a)) -> quiet (await m f).
Proof.
  intros Hm Hf w Hw. unfold await. specialize (Hm w Hw).
  destruct (m w) as [[a|e|] w1]; simpl in *; try exact Hm. apply Hf, Hm.
Qed.

Lemma quiet_try_catch {A : Type} (m : Async A) handler :
  quiet m -> (forall e, quiet (handler e)) -> quiet (try_catch m handler).
Proof.
  intros Hm Hh w Hw. unfold try_catch. specialize (Hm w Hw).
  destruct (m w) as [[a|e|] w1]; simpl in *; try exact Hm. apply Hh, Hm.
Qed.

Lemma quiet_try_finally {A : Type} (m : Async A) cleanup :
  quiet m -> quiet cleanup -> quiet (try_finally m cleanup).
Proof.
  intros Hm Hc w Hw. unfold try_finally. specialize (Hm w Hw).
  destruct (m w) as [[a|e|] w1]; simpl in *; try exact Hm;
    specialize (Hc w1 Hm); destruct (cleanup w1) as [[[]|e'|] w2]; exact Hc.
Qed.

Lemma quiet_race_timeout {A : Type} (m : Async A) ms error : quiet (race_timeout m ms error).
Proof.
  intros w _. unfold race_timeout. destruct (m _) as [[a|e|] w1]; reflexivity.
Qed.

Lemma quiet_resolve {A : Type} (a : A) : quiet (resolve a).
Proof. intros w Hw. exact Hw. Qed.

Lemma quiet_getKeys prefix : quiet (RedisCacheService.getKeys prefix).
Proof.
  intros w Hw. rewrite getKeys_world. unfold Client.iterator.
  destruct (next_link w); exact Hw.
Qed.

Lemma quiet_serve r w : timer w = None -> timer (serve r w) = None.
Proof.
  destruct r as [k|prefix| |k|userId| |k v ttl]; simpl; unfold after.
  - apply quiet_client_call. reflexivity.
  - apply quiet_getKeys.
  - unfold RedisCacheService.isHealthy. apply quiet_await.
    + intros w0 Hw0. exact Hw0.
    + intros instant. apply quiet_try_finally.
      * unfold RedisCacheService.check. apply quiet_try_catch.
        -- apply quiet_await; [apply quiet_race_timeout|intros _; apply quiet_resolve].
        -- intros e. apply quiet_await; [intros w0 Hw0; exact Hw0|].
           intros _. apply quiet_resolve.
      * unfold RedisCacheService.cleanup. apply quiet_try_catch.
        -- apply quiet_client_call. reflexivity.
        -- intros _. apply quiet_resolve.
  - apply quiet_client_call. reflexivity.
  - unfold RedisCacheService.removePortfolioSnapshotsByUserId. apply quiet_await.
    + apply quiet_getKeys.
    + intros keys. apply quiet_client_call. reflexivity.
  - apply quiet_client_call. reflexivity.
  - intros Hw. unfold RedisCacheService.set.
    apply (quiet_client_call (CallSet k v (nullish_coalesce ttl (CACHE_TTL w)))); [reflexivity|exact Hw].
Qed.

Lemma serve_all_spares key requests w :
  Forall (spares key) requests -> timer w = None ->
  store (serve_all requests w) !! key = store w !! key
  /\ timer (serve_all requests w) = None.
Proof.
  intros Hall. revert w. induction Hall as [|r requests Hr _ IH]; intros w Hw; simpl.
  - split; [reflexivity|exact Hw].
  - destruct (IH (serve r w) (quiet_serve r w Hw)) as [Hstore Htimer].
    split; [|exact Htimer]. rewrite Hstore. apply serve_spares. exact Hr.
Qed.

(** C8. After a [set] the store served, [get] returns the value written:
    at once, and after any requests that neither delete the key ([remove],
    the [deleteMany] of an invalidation, [reset]) nor write it anew, as long
    as its time-to-live has not elapsed when the store serves the [get]. *)
Theorem set_get_round_trip (key value : string) (ttl : optional Z) (w : World)
    (delay delay' : N) (requests : list Request) :
  next_link w = Up delay -> timer w = None ->
  Forall (spares key) requests ->
  let w' := serve_all requests (after (RedisCacheService.set key value ttl) w) in
  next_link w' = Up delay' ->
  (effective_ttl ttl w = 0 \/ now w' + Z.of_N delay' <= now w + effective_ttl ttl w)%Z ->
  (RedisCacheService.set key value ttl w).1 = Returned tt
  /\ (RedisCacheService.get key w').1 = Returned (Some value).
Proof.
  intros Hlink Htimer Hspares w' Hlink' Hlive.
  pose proof (set_served key value ttl w delay Hlink Htimer) as Hset.
  split; [rewrite Hset; reflexivity|].
  destruct (serve_all_spares key requests (after (RedisCacheService.set key value ttl) w)
              Hspares) as [Hstore Htimer'].
  { unfold after. rewrite Hset. exact Htimer. }
  fold w' in Hstore, Htimer'.
  unfold RedisCacheService.get, Client.get.
  rewrite (client_call_served _ _ _ _ Hlink' Htimer'). simpl.
  unfold Store.get. rewrite Hstore. unfold after. rewrite Hset. simpl.
  unfold Store.set. rewrite lookup_insert_eq. unfold expired, expires_at. simpl.
  destruct (effective_ttl ttl w =? 0)%Z eqn:Hzero; [reflexivity|].
  apply Z.eqb_neq in Hzero.
  destruct Hlive as [Hlive|Hlive]; [contradiction|].
  destruct (Z.ltb_spec (now w + effective_ttl ttl w) (now w' + Z.of_N delay')); [lia|reflexivity].
Qed.

Lemma set_get_round_trip_witness :
  let w := fresh 1700000000000 60000 [Up 2; Up 3; Up 4; Up 5; Up 6] in
  (RedisCacheService.set "quote-YAHOO:AAPL" "187.2" Undefined w).1 = Returned tt
  /\ (RedisCacheService.get "quote-YAHOO:AAPL"
        (serve_all [Set_ "quote-YAHOO:MSFT" "411.0" (Given 1000%Z); Remove "quote-YAHOO:MSFT";
                    IsHealthy]
           (after (RedisCacheService.set "quote-YAHOO:AAPL" "187.2" Undefined) w))).1
     = Returned (Some "187.2"%string).
Proof.
  apply (set_get_round_trip "quote-YAHOO:AAPL" "187.2" Undefined
           (fresh 1700000000000 60000 [Up 2; Up 3; Up 4; Up 5; Up 6]) 2 0
           [Set_ "quote-YAHOO:MSFT" "411.0" (Given 1000%Z); Remove "quote-YAHOO:MSFT";
            IsHealthy]).
  - reflexivity.
  - reflexivity.
  - repeat constructor; discriminate.
  - vm_compute. reflexivity.
  - right. vm_compute. discriminate.
Defined.

(** ** The portfolio snapshot key *)

Lemma hex_digit_lower n : lower_hex (Json.hex_digit n).
Proof.
  unfold lower_hex, hex_alphabet.
  destruct n as [|p]; [set_solver|].
  do 4 (destruct p as [p|p|]; try (simpl; set_solver)).
Qed.

(** A digest has 64 digits, all of them lowercase hexadecimal. *)
Lemma hex_length st : String.length (SHA256.hex st) = 64.
Proof. reflexivity. Qed.

Lemma hex_lower st : Forall lower_hex (list_ascii_of_string (SHA256.hex st)).
Proof.
  unfold SHA256.hex, SHA256.word_hex. cbn [list_ascii_of_string].
  repeat (constructor; [apply hex_digit_lower|]). constructor.
Qed.

Lemma sha256_hex_length s : String.length (SHA256.sha256_hex s) = 64.
Proof. apply hex_length. Qed.

Lemma sha256_hex_lower s : Forall lower_hex (list_ascii_of_string (SHA256.sha256_hex s)).
Proof. apply hex_lower. Qed.

Lemma append_cancel (a x y : string) : a +:+ x = a +:+ y -> x = y.
Proof.
  induction a as [|c a IH]; simpl; [trivial|]. intros H. inversion H. auto.
Qed.

Lemma getPortfolioSnapshotKey_filtered userId f fs :
  RedisCacheService.getPortfolioSnapshotKey (Given (f :: fs)) userId
  = ("portfolio-snapshot-" +:+ userId) +:+ "-" +:+ filters_digest (f :: fs).
Proof. reflexivity. Qed.

(** Two non-empty filter lists have the same key exactly when they have
    the same digest. *)
Lemma getPortfolioSnapshotKey_digest userId fs fs' :
  fs <> [] -> fs' <> [] ->
  RedisCacheService.getPortfolioSnapshotKey (Given fs) userId
  = RedisCacheService.getPortfolioSnapshotKey (Given fs') userId
  <-> filters_digest fs = filters_digest fs'.
Proof.
  intros Hfs Hfs'. destruct fs as [|f fs]; [contradiction|].
  destruct fs' as [|f' fs']; [contradiction|].
  rewrite !getPortfolioSnapshotKey_filtered. split.
  - intros H. apply append_cancel in H. apply (append_cancel "-"). exact H.
  - intros ->. reflexivity.
Qed.

(** *** Counting orderings against digests *)

Lemma length_hex_strings n : length (hex_strings n) = 2 ^ (4 * n).
Proof.
  induction n as [|n IH].
  - reflexivity.
  - replace (4 * S n) with (S (S (S (S (4 * n))))) by lia.
    rewrite !Nat.pow_succ_r', <- IH.
    cbn [hex_strings flat_map hex_alphabet].
    rewrite !length_app, !length_map. simpl. lia.
Qed.

Lemma elem_of_hex_strings s :
  Forall lower_hex (list_ascii_of_string s) -> s ∈ hex_strings (String.length s).
Proof.
  induction s as [|c s IH]; intros Hs.
  - left.
  - inversion Hs as [|c' l Hc Hrest]; subst.
    cbn [String.length hex_strings]. apply list_elem_of_In, in_flat_map.
    exists c. split; [apply list_elem_of_In; exact Hc|].
    apply in_map, list_elem_of_In, IH, Hrest.
Qed.

Lemma filters_digest_hex fs : filters_digest fs ∈ hex_strings 64.
Proof.
  rewrite <- (sha256_hex_length (Json.stringify (JArray fs))).
  apply elem_of_hex_strings, sha256_hex_lower.
Qed.

Lemma length_vectors n : length (vectors n) = 2 ^ n.
Proof.
  induction n as [|n IH]; [reflexivity|].
  cbn [vectors]. rewrite length_app, !length_map, IH, Nat.pow_succ_r'. lia.
Qed.

Lemma elem_of_vectors n v : v ∈ vectors n -> length v = n.
Proof.
  revert v. induction n as [|n IH]; intros v Hv.
  - apply list_elem_of_singleton in Hv. subst. reflexivity.
  - cbn [vectors] in Hv. apply elem_of_app in Hv as [Hv|Hv];
      apply list_elem_of_fmap in Hv as [v' [-> Hv']]; simpl; f_equal; apply IH, Hv'.
Qed.

Lemma NoDup_vectors n : NoDup (vectors n).
Proof.
  induction n as [|n IH]; cbn [vectors].
  - apply NoDup_singleton.
  - apply NoDup_app. split; [|split].
    + apply (NoDup_fmap_2 _), IH.
    + intros v Hf Ht.
      apply list_elem_of_fmap in Hf as [v1 [-> _]].
      apply list_elem_of_fmap in Ht as [v2 [Heq _]]. discriminate.
    + apply (NoDup_fmap_2 _), IH.
Qed.

Lemma arrangement_inj v v' : arrangement v = arrangement v' -> v = v'.
Proof.
  revert v'. induction v as [|b v IH]; intros [|b' v'] H.
  - reflexivity.
  - destruct b'; discriminate.
  - destruct b; discriminate.
  - destruct b, b'; cbn in H; try discriminate; inversion H; f_equal; auto.
Qed.

Lemma arrangement_Permutation v v' :
  length v = length v' -> arrangement v ≡ₚ arrangement v'.
Proof.
  revert v'. induction v as [|b v IH]; intros [|b' v'] H; try discriminate.
  - reflexivity.
  - cbn [arrangement flat_map]. apply Permutation_app.
    + destruct b, b'; simpl; (reflexivity || apply perm_swap).
    + apply IH. simpl in H. lia.
Qed.

Lemma arrangement_nonempty b v : arrangement (b :: v) <> [].
Proof. destruct b; discriminate. Qed.

(** Order sensitivity rests on the digest and cannot hold without
    exception: there are more orderings of 257 pairs of two filters than
    digests of 64 hexadecimal digits, so were the keys of every two
    orderings of the same filters different, so would their digests be. No
    two such orderings are known, which is why the statement about the order
    below speaks of the digests of the two lists at hand. *)
Remark digests_cannot_separate_all_orders :
  ~ (forall (userId : string) (filters filters' : list Filter),
        filters ≡ₚ filters' -> filters <> filters' ->
        RedisCacheService.getPortfolioSnapshotKey (Given filters) userId
        <> RedisCacheService.getPortfolioSnapshotKey (Given filters') userId).
Proof.
  intros Hdistinct.
  assert (Hinj : forall v v', v ∈ vectors 257 -> v' ∈ vectors 257 ->
                   filters_digest (arrangement v) = filters_digest (arrangement v') -> v = v').
  { intros v v' Hv Hv' Hdigest.
    destruct (decide (v = v')) as [Heq|Hne]; [exact Heq|exfalso].
    apply elem_of_vectors in Hv, Hv'.
    destruct v as [|b v]; [discriminate Hv|]. destruct v' as [|b' v']; [discriminate Hv'|].
    apply (Hdistinct EmptyString (arrangement (b :: v)) (arrangement (b' :: v'))).
    - apply arrangement_Permutation. congruence.
    - intros Heq. apply Hne, arrangement_inj, Heq.
    - apply getPortfolioSnapshotKey_digest; [apply arrangement_nonempty ..|exact Hdigest]. }
  pose proof (NoDup_fmap_2_strong (fun v => filters_digest (arrangement v)) (vectors 257)
                Hinj (NoDup_vectors 257)) as Hnodup.
  assert (Hsub : forall s, s ∈ (fun v => filters_digest (arrangement v)) <$> vectors 257 ->
                   s ∈ hex_strings 64).
  { intros s Hs. apply list_elem_of_fmap in Hs as [v [-> _]]. apply filters_digest_hex. }
  pose proof (submseteq_length _ _ (NoDup_submseteq _ _ Hnodup Hsub)) as Hlen.
  rewrite length_fmap, length_vectors, length_hex_strings in Hlen.
  apply Nat.pow_le_mono_r_iff in Hlen; lia.
Qed.

(** ** The serialization of filters loses nothing *)

Lemma append_String x (a b : string) : String x a +:+ b = String x (a +:+ b).
Proof. reflexivity. Qed.





(** *** Strings *)





(** *** Numbers *)







(** *** Values *)















(** * Further properties of the service *)

(** ** [getKeys] *)

Lemma NoDup_entries t (m : gmap string Entry) : NoDup (Store.entries t m).*1.
Proof.
  unfold Store.entries. pose proof (NoDup_fst_map_to_list m) as Hnodup.
  induction (map_to_list m) as [|[k e] l IH]; simpl in *; [constructor|].
  apply NoDup_cons in Hnodup as [Hk Hl].
  destruct (expired t e); simpl; [apply IH, Hl|].
  apply NoDup_cons. split; [|apply IH, Hl].
  intros Hin. apply Hk. apply list_elem_of_fmap in Hin as [[k' v] [-> Hin]].
  apply list_elem_of_omap in Hin as [[k'' e'] [Hin Hf]]. simpl in Hf.
  destruct (expired t e'); [discriminate|]. inversion Hf; subst.
  apply list_elem_of_fmap. exists (k', e'). split; [reflexivity|exact Hin].
Qed.

(** X1. When the store serves the enumeration, [getKeys] with a string
    prefix returns, each once, exactly the keys that start with the prefix
    and hold an entry that has not expired when the answer arrives. *)
Theorem getKeys_exact (p : string) (w : World) (delay : N) :
  next_link w = Up delay ->
  exists keys,
    (RedisCacheService.getKeys (Given p) w).1 = Returned keys
    /\ NoDup keys
    /\ forall k, k ∈ keys <->
         startsWith k p = true
         /\ exists e, store w !! k = Some e /\ expired (now w + Z.of_N delay) e = false.
Proof.
  intros Hlink. rewrite (getKeys_served _ _ _ Hlink). eexists. split; [reflexivity|]. split.
  - apply NoDup_ListNoDup, List.NoDup_filter, NoDup_ListNoDup, NoDup_entries.
  - intros k. rewrite elem_of_selected_entries. split.
    + intros [Hsel Hlive]. split; [apply selected_startsWith, Hsel|exact Hlive].
    + intros [Hstarts Hlive]. split; [apply startsWith_selected, Hstarts|exact Hlive].
Qed.

Lemma getKeys_exact_witness :
  exists keys,
    (RedisCacheService.getKeys (Given "portfolio-snapshot-u1")
       (after (RedisCacheService.set "portfolio-snapshot-u2" "c" Undefined)
          (after (RedisCacheService.set "portfolio-snapshot-u1" "a" Undefined)
             (fresh 0 60000 [Up 0; Up 0; Up 7])))).1 = Returned keys
    /\ NoDup keys
    /\ forall k, k ∈ keys <->
         startsWith k "portfolio-snapshot-u1" = true
         /\ exists e,
              store (after (RedisCacheService.set "portfolio-snapshot-u2" "c" Undefined)
                       (after (RedisCacheService.set "portfolio-snapshot-u1" "a" Undefined)
                          (fresh 0 60000 [Up 0; Up 0; Up 7]))) !! k = Some e
              /\ expired (0 + Z.of_N 7) e = false.
Proof.
  apply (getKeys_exact "portfolio-snapshot-u1"
           (after (RedisCacheService.set "portfolio-snapshot-u2" "c" Undefined)
              (after (RedisCacheService.set "portfolio-snapshot-u1" "a" Undefined)
                 (fresh 0 60000 [Up 0; Up 0; Up 7]))) 7%N).
  reflexivity.
Defined.

Lemma filter_all {A : Type} (f : A -> bool) (l : list A) :
  (forall x, f x = true) -> List.filter f l = l.
Proof.
  intros Hf. induction l as [|x l IH]; simpl; [reflexivity|]. rewrite Hf, IH. reflexivity.
Qed.

(** X2. Without a prefix, that is with the argument omitted, [null] or the
    empty string, nothing is filtered: [getKeys] returns the key of every
    entry the enumeration delivers, in the order delivered, also when the
    enumeration breaks off. *)
Theorem getKeys_without_prefix (prefix : optional string) (w : World) :
  truthy prefix = false ->
  (forall delay, next_link w = Up delay ->
     (RedisCacheService.getKeys prefix w).1
     = Returned (Store.entries (now w + Z.of_N delay) (store w)).*1)
  /\ (forall served error, next_link w = Breaks served error ->
        (RedisCacheService.getKeys prefix w).1
        = Returned (firstn served (Store.entries (now w) (store w))).*1).
Proof.
  intros Hfalsy.
  assert (Hall : forall k, RedisCacheService.selected prefix k = true).
  { intros k. unfold RedisCacheService.selected. rewrite Hfalsy. reflexivity. }
  split.
  - intros delay Hlink. rewrite (getKeys_served _ _ _ Hlink). simpl.
    rewrite (filter_all _ _ Hall). reflexivity.
  - intros served error Hlink. rewrite (getKeys_broken _ _ _ _ Hlink). simpl.
    rewrite (filter_all _ _ Hall). reflexivity.
Qed.

Lemma getKeys_without_prefix_witness :
  (RedisCacheService.getKeys (Given EmptyString)
     (after (RedisCacheService.set "quote-YAHOO:AAPL" "187.2" Undefined)
        (fresh 0 60000 [Up 0; Up 3]))).1
  = Returned ["quote-YAHOO:AAPL"%string].
Proof.
  rewrite (proj1 (getKeys_without_prefix (Given EmptyString)
                    (after (RedisCacheService.set "quote-YAHOO:AAPL" "187.2" Undefined)
                       (fresh 0 60000 [Up 0; Up 3])) eq_refl) 3%N eq_refl).
  reflexivity.
Defined.

(** ** The methods that hand a call to the client *)

Lemma client_call_refused {A : Type} (c : Call) (reply : Z -> World -> A * World) w delay error :
  next_link w = Down delay error -> timer w = None ->
  client_call c reply w
  = (Thrown error, on_client_error error (with_now (now w + Z.of_N delay) (issue c w))).
Proof.
  intros Hlink Htimer. unfold client_call, timer_first. rewrite Hlink, Htimer. reflexivity.
Qed.

(** X3. [get], [set], [remove] and [reset] have no handler of their own: a
    call the store refuses reaches their caller as the store's error, and no
    entry has changed; [getKeys] alone swallows the refusal and returns no
    key. *)
Theorem refusal_reaches_caller (w : World) (delay : N) (error : string) :
  next_link w = Down delay error -> timer w = None ->
  (forall key, (RedisCacheService.get key w).1 = Thrown error
               /\ store (RedisCacheService.get key w).2 = store w)
  /\ (forall key value ttl,
         (RedisCacheService.set key value ttl w).1 = Thrown error
         /\ store (RedisCacheService.set key value ttl w).2 = store w)
  /\ (forall key, (RedisCacheService.remove key w).1 = Thrown error
                  /\ store (RedisCacheService.remove key w).2 = store w)
  /\ ((RedisCacheService.reset w).1 = Thrown error
      /\ store (RedisCacheService.reset w).2 = store w)
  /\ (forall prefix, (RedisCacheService.getKeys prefix w).1 = Returned []).
Proof.
  intros Hlink Htimer. repeat split.
  all: try (intros; unfold RedisCacheService.get, RedisCacheService.set,
              RedisCacheService.remove, RedisCacheService.reset,
              Client.get, Client.set, Client.delete, Client.clear;
            rewrite (client_call_refused _ _ _ _ _ Hlink Htimer); reflexivity).
  intros prefix. rewrite (getKeys_refused _ _ _ _ Hlink). reflexivity.
Qed.

Lemma refusal_reaches_caller_witness :
  (RedisCacheService.get "quote-YAHOO:AAPL" (fresh 0 60000 [Down 4 "ECONNREFUSED"])).1
  = Thrown "ECONNREFUSED"
  /\ store (RedisCacheService.get "quote-YAHOO:AAPL"
              (fresh 0 60000 [Down 4 "ECONNREFUSED"])).2
     = store (fresh 0 60000 [Down 4 "ECONNREFUSED"]).
Proof.
  apply (proj1 (refusal_reaches_caller (fresh 0 60000 [Down 4 "ECONNREFUSED"]) 4
                  "ECONNREFUSED" eq_refl eq_refl)).
Defined.

Lemma get_served key w delay :
  next_link w = Up delay -> timer w = None ->
  (RedisCacheService.get key w).1
  = Returned (Store.get (now w + Z.of_N delay) key (store w)).
Proof.
  intros Hlink Htimer. unfold RedisCacheService.get, Client.get.
  rewrite (client_call_served _ _ _ _ Hlink Htimer). reflexivity.
Qed.

Lemma entries_empty t : Store.entries t ∅ = [].
Proof. unfold Store.entries. rewrite map_to_list_empty. reflexivity. Qed.

(** X4. After a [reset] the store served nothing is left: every [get]
    returns [undefined] and [getKeys] returns no key, whatever was stored
    before. *)
Theorem reset_clears (w : World) (delay : N) :
  next_link w = Up delay -> timer w = None ->
  (RedisCacheService.reset w).1 = Returned tt
  /\ calls (RedisCacheService.reset w).2 = calls w ++ [CallClear]
  /\ forall delay',
       next_link (RedisCacheService.reset w).2 = Up delay' ->
       (forall key, (RedisCacheService.get key (RedisCacheService.reset w).2).1
                    = Returned None)
       /\ (forall prefix,
              (RedisCacheService.getKeys prefix (RedisCacheService.reset w).2).1
              = Returned []).
Proof.
  intros Hlink Htimer. unfold RedisCacheService.reset, Client.clear.
  rewrite (client_call_served _ _ _ _ Hlink Htimer). cbv zeta. simpl.
  split; [reflexivity|]. split; [reflexivity|].
  intros delay' Hlink'. split.
  - intros key. rewrite (get_served _ _ _ Hlink' Htimer). simpl.
    unfold Store.get. rewrite lookup_empty. reflexivity.
  - intros prefix. rewrite (getKeys_served _ _ _ Hlink'). simpl.
    rewrite entries_empty. reflexivity.
Qed.

Lemma reset_clears_witness :
  (RedisCacheService.reset
     (after (RedisCacheService.set "quote-YAHOO:AAPL" "187.2" Undefined)
        (fresh 0 60000 [Up 1; Up 2; Up 3]))).1 = Returned tt
  /\ (RedisCacheService.get "quote-YAHOO:AAPL"
        (after RedisCacheService.reset
           (after (RedisCacheService.set "quote-YAHOO:AAPL" "187.2" Undefined)
              (fresh 0 60000 [Up 1; Up 2; Up 3])))).1 = Returned None.
Proof.
  destruct (reset_clears
              (after (RedisCacheService.set "quote-YAHOO:AAPL" "187.2" Undefined)
                 (fresh 0 60000 [Up 1; Up 2; Up 3])) 2 eq_refl eq_refl)
    as (Hreturned & _ & Hafter).
  split; [exact Hreturned|].
  apply (proj1 (Hafter 3%N eq_refl)).
Defined.

(** X5. [remove] touches the entry of its key only, whatever the store
    answers; once the store has served it, [get] of that key returns
    [undefined]; removing a key that has no entry succeeds and changes
    nothing. *)
Theorem remove_effect (key : string) (w : World) :
  (forall k, k <> key -> store (RedisCacheService.remove key w).2 !! k = store w !! k)
  /\ (forall delay,
         next_link w = Up delay -> timer w = None ->
         (RedisCacheService.remove key w).1 = Returned tt
         /\ store (RedisCacheService.remove key w).2 !! key = None
         /\ (store w !! key = None -> store (RedisCacheService.remove key w).2 = store w)
         /\ forall delay',
              next_link (RedisCacheService.remove key w).2 = Up delay' ->
              (RedisCacheService.get key (RedisCacheService.remove key w).2).1
              = Returned None).
Proof.
  split.
  - intros k Hk. apply frames_delete. congruence.
  - intros delay Hlink Htimer. unfold RedisCacheService.remove, Client.delete.
    rewrite (client_call_served _ _ _ _ Hlink Htimer). cbv zeta. simpl.
    split; [reflexivity|]. split; [apply lookup_delete_eq|]. split.
    + intros Habsent. apply delete_id, Habsent.
    + intros delay' Hlink'. rewrite (get_served _ _ _ Hlink' Htimer). simpl.
      unfold Store.get. rewrite lookup_delete_eq. reflexivity.
Qed.

Lemma remove_effect_witness :
  (RedisCacheService.remove "quote-YAHOO:MSFT"
     (after (RedisCacheService.set "quote-YAHOO:AAPL" "187.2" Undefined)
        (fresh 0 60000 [Up 1; Up 2]))).1 = Returned tt
  /\ store (RedisCacheService.remove "quote-YAHOO:MSFT"
              (after (RedisCacheService.set "quote-YAHOO:AAPL" "187.2" Undefined)
                 (fresh 0 60000 [Up 1; Up 2]))).2
     = store (after (RedisCacheService.set "quote-YAHOO:AAPL" "187.2" Undefined)
                (fresh 0 60000 [Up 1; Up 2])).
Proof.
  destruct (proj2 (remove_effect "quote-YAHOO:MSFT"
                     (after (RedisCacheService.set "quote-YAHOO:AAPL" "187.2" Undefined)
                        (fresh 0 60000 [Up 1; Up 2]))) 2%N eq_refl eq_refl)
    as (Hreturned & _ & Habsent & _).
  split; [exact Hreturned|]. apply Habsent. reflexivity.
Defined.

(** ** More on the health check *)







(** While the timer is armed the clock stays between the start and the
    instant the timer fires. *)
Lemma client_call_armed {A : Type} c (reply : Z -> World -> A * World) w fires start :
  timer w = Some fires -> (start <= now w <= fires)%Z ->
  (forall t w0, timer (reply t w0).2 = timer w0 /\ now (reply t w0).2 = now w0) ->
  timer (client_call c reply w).2 = Some fires
  /\ (start <= now (client_call c reply w).2 <= fires)%Z.
Proof.
  intros Htimer Hnow Hreply. unfold client_call, timer_first. rewrite Htimer.
  destruct (next_link w) as [d|d e|n e|]; simpl.
  - destruct (Z.leb_spec fires (now w + Z.of_N d)); simpl.
    + rewrite Htimer. simpl. split; [reflexivity|lia].
    + destruct (Hreply (now w) (with_now (now w + Z.of_N d) (issue c w))) as [Ht Hn].
      destruct (reply _ _) as [a w2]; simpl in *. rewrite Ht, Hn. split; [exact Htimer|lia].
  - destruct (Z.leb_spec fires (now w + Z.of_N d)); simpl.
    + rewrite Htimer. simpl. split; [reflexivity|lia].
    + split; [exact Htimer|lia].
  - split; [exact Htimer|lia].
  - rewrite Htimer. simpl. split; [reflexivity|lia].
Qed.

Lemma probe_armed testValue w fires start :
  timer w = Some fires -> (start <= now w <= fires)%Z ->
  (start <= now (RedisCacheService.probe testValue w).2 <= fires)%Z.
Proof.
  intros Htimer Hnow. unfold RedisCacheService.probe, await, RedisCacheService.set,
    RedisCacheService.get, Client.set, Client.get.
  match goal with
  | |- context [client_call ?c ?r w] =>
      destruct (client_call_armed c r w fires start Htimer Hnow) as [Ht1 Hn1];
        [intros; split; reflexivity|];
      destruct (client_call c r w) as [[[]|e|] w1]; simpl in *; try exact Hn1
  end.
  match goal with
  | |- context [client_call ?c ?r w1] =>
      destruct (client_call_armed c r w1 fires start Ht1 Hn1) as [Ht2 Hn2];
        [intros; split; reflexivity|];
      destruct (client_call c r w1) as [[result|e|] w2]; simpl in *; try exact Hn2
  end.
  destruct (decide _); exact Hn2.
Qed.

Lemma check_clock testValue w :
  (now w <= now (RedisCacheService.check testValue w).2 <= now w + ms_2_seconds)%Z
  /\ timer (RedisCacheService.check testValue w).2 = None.
Proof.
  rewrite check_outcome. unfold race_timeout.
  pose proof (probe_armed testValue (with_timer (Some (now w + ms_2_seconds)%Z) w)
                (now w + ms_2_seconds)%Z (now w) eq_refl) as Hprobe.
  simpl in Hprobe. unfold ms_2_seconds in *.
  destruct (RedisCacheService.probe _ _) as [[[]|e|] w1]; simpl in *;
    (split; [apply Hprobe; lia|reflexivity]).
Qed.

(** X7. The [try] block never outlasts the timer: it completes within
    2000 ms; and when the store answers the removal of the sentinel key
    after [delay] ms, served or refused, [isHealthy] returns a boolean within
    2000 ms plus that delay. *)
Theorem isHealthy_deadline (w : World) :
  (now w <= now (RedisCacheService.check (Json.number (now w)) w).2 <= now w + 2000)%Z
  /\ forall delay,
       (next_link (RedisCacheService.check (Json.number (now w)) w).2 = Up delay
        \/ exists error,
             next_link (RedisCacheService.check (Json.number (now w)) w).2
             = Down delay error) ->
       (exists b, (RedisCacheService.isHealthy w).1 = Returned b)
       /\ (now w <= now (RedisCacheService.isHealthy w).2 <= now w + 2000 + Z.of_N delay)%Z.
Proof.
  destruct (check_clock (Json.number (now w)) w) as [Hclock Htimer].
  unfold ms_2_seconds in Hclock. split; [exact Hclock|].
  intros delay Hlink. rewrite isHealthy_outcome. cbv zeta.
  destruct (check_returns (Json.number (now w)) w) as [b Hb].
  unfold RedisCacheService.remove, Client.delete.
  destruct Hlink as [Hlink|[error Hlink]].
  - rewrite (client_call_served _ _ _ _ Hlink Htimer). cbv zeta. simpl.
    split; [exists b; exact Hb|lia].
  - rewrite (client_call_refused _ _ _ _ _ Hlink Htimer). simpl.
    split; [exists b; exact Hb|lia].
Qed.

Lemma isHealthy_deadline_witness :
  (exists b, (RedisCacheService.isHealthy
                (fresh 1700000000000 60000 [Stalled; Up 40])).1 = Returned b)
  /\ (1700000000000
      <= now (RedisCacheService.isHealthy (fresh 1700000000000 60000 [Stalled; Up 40])).2
      <= 1700000000000 + 2000 + Z.of_N 40)%Z.
Proof.
  apply (proj2 (isHealthy_deadline (fresh 1700000000000 60000 [Stalled; Up 40])) 40%N).
  left. vm_compute. reflexivity.
Defined.

Lemma probe_calls testValue w :
  calls (RedisCacheService.probe testValue w).2
  = calls w ++ [CallSet RedisCacheService.testKey testValue ms_1_second]
    ++ match (RedisCacheService.set RedisCacheService.testKey testValue
                (Given ms_1_second) w).1 with
       | Returned _ => [CallGet RedisCacheService.testKey]
       | _ => []
       end.
Proof.
  unfold RedisCacheService.probe, await.
  pose proof (set_passes_ttl RedisCacheService.testKey testValue (Given ms_1_second) w)
    as Hset. simpl in Hset.
  destruct (RedisCacheService.set _ _ _ w) as [[[]|e|] w1]; simpl in *; auto.
  pose proof (get_calls RedisCacheService.testKey w1) as Hget.
  unfold RedisCacheService.get.
  destruct (Client.get _ w1) as [[result|e|] w2]; simpl in *;
    try destruct (decide _); simpl; rewrite Hget, Hset, <- app_assoc; reflexivity.
Qed.

Lemma check_calls testValue w :
  calls (RedisCacheService.check testValue w).2
  = calls w ++ [CallSet RedisCacheService.testKey testValue ms_1_second]
    ++ match (RedisCacheService.set RedisCacheService.testKey testValue
                (Given ms_1_second) (with_timer (Some (now w + ms_2_seconds)%Z) w)).1 with
       | Returned _ => [CallGet RedisCacheService.testKey]
       | _ => []
       end.
Proof.
  rewrite check_outcome. unfold race_timeout.
  pose proof (probe_calls testValue (with_timer (Some (now w + ms_2_seconds)%Z) w)) as Hprobe.
  destruct (RedisCacheService.probe _ _) as [[[]|e|] w1]; simpl in *; exact Hprobe.
Qed.

(** X8. A health check works on the sentinel key only: the entry of every
    other key is left as it was, whatever the store answers. Its calls
    start with the [set] of the sentinel key, with the start instant as value
    and a ttl of 1000 ms; the [get] of the key precedes the [delete] exactly
    when that [set] returned before the timer of 2000 ms fired; then comes
    the [delete], which the [finally] block issues in every case. A probe
    the timer has overtaken is not cancelled, so calls may follow the
    [delete]. *)
Theorem isHealthy_sentinel_only (w : World) :
  (forall k, k <> "__health_check__"%string ->
             store (RedisCacheService.isHealthy w).2 !! k = store w !! k)
  /\ exists later,
       calls (RedisCacheService.isHealthy w).2
       = calls w
         ++ [CallSet "__health_check__" (Json.number (now w)) 1000]
         ++ match (RedisCacheService.set "__health_check__" (Json.number (now w))
                     (Given 1000%Z) (with_timer (Some (now w + 2000)%Z) w)).1 with
            | Returned _ => [CallGet "__health_check__"]
            | _ => []
            end
         ++ CallDelete "__health_check__" :: later.
Proof.
  split.
  - intros k Hk. apply frames_isHealthy. intros Heq. apply Hk. symmetry. exact Heq.
  - exists []. rewrite isHealthy_world, delete_calls, check_calls.
    rewrite <- !app_assoc. reflexivity.
Qed.

Lemma isHealthy_sentinel_only_witness :
  store (RedisCacheService.isHealthy
           (after (RedisCacheService.set "quote-YAHOO:AAPL" "187.2" Undefined)
              (fresh 1700000000000 60000 [Up 1; Stalled; Stalled]))).2 !! "quote-YAHOO:AAPL"
  = store (after (RedisCacheService.set "quote-YAHOO:AAPL" "187.2" Undefined)
             (fresh 1700000000000 60000 [Up 1; Stalled; Stalled])) !! "quote-YAHOO:AAPL".
Proof.
  apply (proj1 (isHealthy_sentinel_only
                  (after (RedisCacheService.set "quote-YAHOO:AAPL" "187.2" Undefined)
                     (fresh 1700000000000 60000 [Up 1; Stalled; Stalled])))).
  discriminate.
Defined.

(** The probe against a store that serves every call: what counts is the
    time the [set] and the [get] take together. *)
Lemma check_window w d1 d2 d3 rest :
  links w = Up d1 :: Up d2 :: Up d3 :: rest ->
  (RedisCacheService.check (Json.number (now w)) w).1 = Returned (d1 + d2 <=? 1000)%N
  /\ logged (RedisCacheService.check (Json.number (now w)) w).2
     = logged w
       ++ (if (d1 + d2 <=? 1000)%N then []
           else if (d1 + d2 <? 2000)%N
                then ["Redis health check failed: value mismatch"%string]
                else ["Redis health check failed: timeout"%string])
  /\ exists d, next_link (RedisCacheService.check (Json.number (now w)) w).2 = Up d.
Proof.
  intros Hlinks. rewrite check_outcome.
  unfold race_timeout, RedisCacheService.probe, await, RedisCacheService.set,
    RedisCacheService.get, Client.set, Client.get, client_call, next_link, timer_first.
  cbn [links with_timer issue timer now nullish_coalesce hd tl]. rewrite Hlinks.
  cbn [hd tl]. unfold ms_2_seconds, ms_1_second.
  destruct (Z.leb_spec (now w + 2000) (now w + Z.of_N d1)) as [H1|H1].
  - destruct (N.leb_spec (d1 + d2) 1000); [lia|].
    destruct (N.ltb_spec (d1 + d2) 2000); [lia|].
    cbn. rewrite Hlinks. cbn. repeat split. eauto.
  - cbn [fst snd links with_timer with_now with_store issue timer now tl hd].
    rewrite Hlinks. cbn [hd tl].
    destruct (Z.leb_spec (now w + 2000) (now w + Z.of_N d1 + Z.of_N d2)) as [H2|H2].
    + destruct (N.leb_spec (d1 + d2) 1000); [lia|].
      destruct (N.ltb_spec (d1 + d2) 2000); [lia|].
      cbn. rewrite Hlinks. cbn. repeat split. eauto.
    + cbn [fst snd links with_timer with_now with_store issue timer now tl hd store].
      unfold Store.get, Store.set. rewrite lookup_insert_eq.
      unfold expired, expires_at. cbn [entry_expires entry_value Z.eqb].
      destruct (N.ltb_spec (d1 + d2) 2000); [|lia].
      destruct (Z.ltb_spec (now w + 1000) (now w + Z.of_N d1 + Z.of_N d2)) as [H3|H3].
      * destruct (N.leb_spec (d1 + d2) 1000); [lia|].
        destruct (decide _) as [Heq|_]; [discriminate Heq|].
        cbn. rewrite Hlinks. cbn. repeat split. eauto.
      * destruct (N.leb_spec (d1 + d2) 1000); [|lia].
        destruct (decide _) as [_|Hne]; [|contradiction].
        cbn. rewrite Hlinks. cbn. rewrite app_nil_r. repeat split. eauto.
Qed.

(** X9. Against a store that serves every call the health check is decided
    by the time the [set] and the [get] of the probe take together: up to
    1000 ms, the ttl of the sentinel entry, it returns [true]; beyond that
    and below 2000 ms the value read back has expired and it returns [false]
    for a value mismatch; from 2000 ms on the timer fires first and it
    returns [false] for a timeout. *)
Theorem isHealthy_window (w : World) (d1 d2 d3 : N) (rest : list Link) :
  links w = Up d1 :: Up d2 :: Up d3 :: rest ->
  (RedisCacheService.isHealthy w).1 = Returned (d1 + d2 <=? 1000)%N
  /\ logged (RedisCacheService.isHealthy w).2
     = logged w
       ++ (if (d1 + d2 <=? 1000)%N then []
           else if (d1 + d2 <? 2000)%N
                then ["Redis health check failed: value mismatch"%string]
                else ["Redis health check failed: timeout"%string]).
Proof.
  intros Hlinks.
  destruct (check_window w d1 d2 d3 rest Hlinks) as (Hcheck & Hlogged & d & Hlink).
  destruct (check_clock (Json.number (now w)) w) as [_ Htimer].
  rewrite isHealthy_outcome. cbv zeta.
  unfold RedisCacheService.remove, Client.delete in *.
  rewrite (client_call_served _ _ _ _ Hlink Htimer) in *. cbv zeta in *. simpl in *.
  split; [exact Hcheck|exact Hlogged].
Qed.

Lemma isHealthy_window_witness :
  (RedisCacheService.isHealthy (fresh 1700000000000 60000 [Up 700; Up 800; Up 5])).1
  = Returned false
  /\ logged (RedisCacheService.isHealthy
               (fresh 1700000000000 60000 [Up 700; Up 800; Up 5])).2
     = ["Redis health check failed: value mismatch"%string].
Proof.
  apply (isHealthy_window (fresh 1700000000000 60000 [Up 700; Up 800; Up 5]) 700 800 5 []).
  reflexivity.
Defined.

(** ** More on the invalidation of snapshots *)

Lemma iterator_links w : links (Client.iterator w).2 = tl (links w).
Proof. unfold Client.iterator. destruct (next_link w); reflexivity. Qed.


(** Once the enumeration has returned, the invalidation is the one call to
    [deleteMany]. *)
Lemma removePortfolioSnapshotsByUserId_then userId w keys w1 :
  RedisCacheService.getKeys (Given (snapshot_prefix userId)) w = (Returned keys, w1) ->
  RedisCacheService.removePortfolioSnapshotsByUserId userId w = Client.deleteMany keys w1.
Proof.
  intros Hget. unfold RedisCacheService.removePortfolioSnapshotsByUserId, await.
  fold (snapshot_prefix userId). rewrite Hget. reflexivity.
Qed.

Lemma getKeys_returns prefix w :
  next_link w <> Stalled ->
  exists keys, RedisCacheService.getKeys prefix w = (Returned keys, (Client.iterator w).2).
Proof.
  intros Hlink. rewrite <- (getKeys_world prefix w).
  destruct (next_link w) as [d|d e|n e|] eqn:Hnext.
  - rewrite (getKeys_served _ _ _ Hnext). eauto.
  - rewrite (getKeys_refused _ _ _ _ Hnext). eauto.
  - rewrite (getKeys_broken _ _ _ _ Hnext). eauto.
  - contradiction.
Qed.



(** X11. An enumeration that breaks off makes the invalidation delete less,
    silently: it succeeds, and [deleteMany] gets the keys that start with the
    prefix of the user among the keys delivered before the failure; such a
    key has no entry afterwards, while a key the enumeration did not reach
    keeps its entry, even under the prefix. When the enumeration is refused
    at the start, [deleteMany] is still called, with no key, and nothing
    changes. *)
Theorem removePortfolioSnapshotsByUserId_truncated
    (userId : string) (w : World) (delay : N) (error : string) (rest : list Link) :
  timer w = None ->
  (forall served,
      links w = Breaks served error :: Up delay :: rest ->
      let reached := (firstn served (Store.entries (now w) (store w))).*1 in
      let keys := List.filter (fun k => startsWith k (snapshot_prefix userId)) reached in
      (RedisCacheService.removePortfolioSnapshotsByUserId userId w).1 = Returned tt
      /\ calls (RedisCacheService.removePortfolioSnapshotsByUserId userId w).2
         = calls w ++ [CallIterator; CallDeleteMany keys]
      /\ (forall k, k ∈ reached -> startsWith k (snapshot_prefix userId) = true ->
            store (RedisCacheService.removePortfolioSnapshotsByUserId userId w).2 !! k
            = None)
      /\ (forall k, k ∉ reached ->
            store (RedisCacheService.removePortfolioSnapshotsByUserId userId w).2 !! k
            = store w !! k))
  /\ (forall delay0,
         links w = Down delay0 error :: Up delay :: rest ->
         (RedisCacheService.removePortfolioSnapshotsByUserId userId w).1 = Returned tt
         /\ calls (RedisCacheService.removePortfolioSnapshotsByUserId userId w).2
            = calls w ++ [CallIterator; CallDeleteMany []]
         /\ store (RedisCacheService.removePortfolioSnapshotsByUserId userId w).2 = store w).
Proof.
  intros Htimer. split.
  - intros served Hlinks reached keys.
    assert (Hlink : next_link w = Breaks served error)
      by (unfold next_link; rewrite Hlinks; reflexivity).
    pose proof (getKeys_broken (Given (snapshot_prefix userId)) w served error Hlink) as Hget.
    rewrite filter_selected_Given in Hget. fold reached in Hget. fold keys in Hget.
    rewrite (removePortfolioSnapshotsByUserId_calls _ _ _ _ Hget).
    rewrite (removePortfolioSnapshotsByUserId_then _ _ _ _ Hget).
    unfold Client.deleteMany. rewrite (client_call_served _ _ _ delay).
    + cbv zeta. simpl. split; [reflexivity|]. split; [reflexivity|]. split.
      * intros k Hk Hstarts. rewrite lookup_deleteMany. rewrite decide_True; [reflexivity|].
        subst keys. apply list_elem_of_In, filter_In. split; [|exact Hstarts].
        apply list_elem_of_In, Hk.
      * intros k Hk. rewrite lookup_deleteMany. rewrite decide_False; [reflexivity|].
        intros Hin. apply Hk. subst keys.
        apply list_elem_of_In, filter_In in Hin as [Hin _]. apply list_elem_of_In, Hin.
    + unfold next_link. simpl. rewrite Hlinks. reflexivity.
    + exact Htimer.
  - intros delay0 Hlinks.
    assert (Hlink : next_link w = Down delay0 error)
      by (unfold next_link; rewrite Hlinks; reflexivity).
    pose proof (getKeys_refused (Given (snapshot_prefix userId)) w delay0 error Hlink) as Hget.
    rewrite (removePortfolioSnapshotsByUserId_calls _ _ _ _ Hget).
    rewrite (removePortfolioSnapshotsByUserId_then _ _ _ _ Hget).
    unfold Client.deleteMany. rewrite (client_call_served _ _ _ delay).
    + cbv zeta. simpl. repeat split.
    + unfold next_link. simpl. rewrite Hlinks. reflexivity.
    + exact Htimer.
Qed.

Lemma removePortfolioSnapshotsByUserId_truncated_witness :
  let w := after (RedisCacheService.set "portfolio-snapshot-u1" "a" Undefined)
             (after (RedisCacheService.set "portfolio-snapshot-u1-abc" "b" Undefined)
                (after (RedisCacheService.set "quote-YAHOO:AAPL" "187.2" Undefined)
                   (fresh 0 60000 [Up 0; Up 0; Up 0; Breaks 2 "ECONNRESET"; Up 1]))) in
  (RedisCacheService.removePortfolioSnapshotsByUserId "u1" w).1 = Returned tt
  /\ calls (RedisCacheService.removePortfolioSnapshotsByUserId "u1" w).2
     = calls w ++ [CallIterator; CallDeleteMany ["portfolio-snapshot-u1-abc"%string]]
  /\ store (RedisCacheService.removePortfolioSnapshotsByUserId "u1" w).2
       !! "portfolio-snapshot-u1-abc"%string = None
  /\ store (RedisCacheService.removePortfolioSnapshotsByUserId "u1" w).2
       !! "portfolio-snapshot-u1"%string
     = store w !! "portfolio-snapshot-u1"%string.
Proof.
  intros w.
  assert (Htimer : timer w = None) by (vm_compute; reflexivity).
  assert (Hlinks : links w = [Breaks 2 "ECONNRESET"; Up 1]) by (vm_compute; reflexivity).
  destruct (proj1 (removePortfolioSnapshotsByUserId_truncated "u1" w 1 "ECONNRESET" []
                     Htimer) 2%nat Hlinks) as (Hreturned & Hcalls & Hdeleted & Hkept).
  split; [exact Hreturned|]. split; [rewrite Hcalls; vm_compute; reflexivity|]. split.
  - apply Hdeleted; [|vm_compute; reflexivity].
    apply (bool_decide_unpack _). vm_compute. exact I.
  - apply Hkept. apply (bool_decide_unpack _). vm_compute. exact I.
Defined.

(** ** Key spaces *)

Lemma getPortfolioSnapshotKey_head filters userId :
  exists r, RedisCacheService.getPortfolioSnapshotKey filters userId = String "p" r.
Proof. destruct filters as [| |[|f fs]]; eexists; reflexivity. Qed.

Lemma getQuoteKey_head dataSource symbol :
  exists r, RedisCacheService.getQuoteKey dataSource symbol = String "q" r.
Proof. eexists. reflexivity. Qed.

(** X12. The three key spaces are apart: a quote key, a snapshot key and
    the sentinel key of the health check are never equal, and neither a
    quote key nor the sentinel key lies under a snapshot prefix.  So the
    invalidation of a user's snapshots leaves every quote entry as it was,
    and a health check leaves every quote and snapshot entry as it was,
    whatever the store answers. *)
Theorem key_spaces_apart (dataSource symbol userId : string) (filters : optional (list Filter)) :
  RedisCacheService.getQuoteKey dataSource symbol
  <> RedisCacheService.getPortfolioSnapshotKey filters userId
  /\ RedisCacheService.getQuoteKey dataSource symbol <> RedisCacheService.testKey
  /\ RedisCacheService.getPortfolioSnapshotKey filters userId <> RedisCacheService.testKey
  /\ (forall w user,
         store (RedisCacheService.removePortfolioSnapshotsByUserId user w).2
           !! RedisCacheService.getQuoteKey dataSource symbol
         = store w !! RedisCacheService.getQuoteKey dataSource symbol)
  /\ (forall w,
         store (RedisCacheService.isHealthy w).2
           !! RedisCacheService.getQuoteKey dataSource symbol
         = store w !! RedisCacheService.getQuoteKey dataSource symbol
         /\ store (RedisCacheService.isHealthy w).2
              !! RedisCacheService.getPortfolioSnapshotKey filters userId
            = store w !! RedisCacheService.getPortfolioSnapshotKey filters userId).
Proof.
  destruct (getPortfolioSnapshotKey_head filters userId) as [rs Hs].
  destruct (getQuoteKey_head dataSource symbol) as [rq Hq].
  rewrite Hs, Hq. unfold RedisCacheService.testKey.
  split; [discriminate|]. split; [discriminate|]. split; [discriminate|]. split.
  - intros w user. apply frames_removePortfolioSnapshotsByUserId.
    destruct (getPortfolioSnapshotKey_head Undefined user) as [ru Hu].
    unfold snapshot_prefix. rewrite Hu. discriminate.
  - intros w. split; apply frames_isHealthy; discriminate.
Qed.

Lemma prefix_append_same (c a b : string) :
  String.prefix (c +:+ a) (c +:+ b) = String.prefix a b.
Proof.
  induction c as [|x c IH]; [reflexivity|]. rewrite !append_String. simpl.
  destruct (ascii_dec x x) as [_|Hne]; [exact IH|contradiction].
Qed.

(** X13. For unfiltered snapshots the reach of the invalidation is exactly
    the prefix relation on user ids: the snapshot key of [userId'] lies under
    the prefix of [userId] if and only if [userId] is a prefix of [userId'];
    when it is not, invalidating [userId] leaves the snapshot of [userId'] as
    it was, whatever the store answers. *)
Theorem removePortfolioSnapshotsByUserId_reach (userId userId' : string) :
  startsWith (RedisCacheService.getPortfolioSnapshotKey Undefined userId')
             (snapshot_prefix userId)
  = String.prefix userId userId'
  /\ (String.prefix userId userId' = false ->
      forall w,
        store (RedisCacheService.removePortfolioSnapshotsByUserId userId w).2
          !! RedisCacheService.getPortfolioSnapshotKey Undefined userId'
        = store w !! RedisCacheService.getPortfolioSnapshotKey Undefined userId').
Proof.
  assert (Hreach : startsWith (RedisCacheService.getPortfolioSnapshotKey Undefined userId')
                              (snapshot_prefix userId)
                   = String.prefix userId userId').
  { unfold startsWith, snapshot_prefix, RedisCacheService.getPortfolioSnapshotKey.
    cbv zeta. apply prefix_append_same. }
  split; [exact Hreach|].
  intros Hprefix w. apply frames_removePortfolioSnapshotsByUserId.
  rewrite Hreach, Hprefix. discriminate.
Qed.

Lemma removePortfolioSnapshotsByUserId_reach_witness :
  store (RedisCacheService.removePortfolioSnapshotsByUserId "u10"
           (after (RedisCacheService.set "portfolio-snapshot-u1" "a" Undefined)
              (fresh 0 60000 []))).2 !! RedisCacheService.getPortfolioSnapshotKey Undefined "u1"
  = store (after (RedisCacheService.set "portfolio-snapshot-u1" "a" Undefined)
             (fresh 0 60000 [])) !! RedisCacheService.getPortfolioSnapshotKey Undefined "u1".
Proof.
  apply (proj2 (removePortfolioSnapshotsByUserId_reach "u10" "u1")).
  reflexivity.
Defined.

Lemma length_append (a b : string) :
  String.length (a +:+ b) = String.length a + String.length b.
Proof.
  induction a as [|x a IH]; [reflexivity|]. rewrite append_String. simpl. rewrite IH.
  reflexivity.
Qed.

(** X14. The unfiltered key determines the user id, and with filters the
    key is the unfiltered key of the same user followed by 65 characters: a
    filtered snapshot never takes the place of the unfiltered one, and always
    lies under the prefix the invalidation of that user scans. *)
Theorem getPortfolioSnapshotKey_shape :
  (forall userId userId',
      RedisCacheService.getPortfolioSnapshotKey Undefined userId
      = RedisCacheService.getPortfolioSnapshotKey Undefined userId' ->
      userId = userId')
  /\ (forall userId f fs,
         String.length (RedisCacheService.getPortfolioSnapshotKey (Given (f :: fs)) userId)
         = String.length (RedisCacheService.getPortfolioSnapshotKey Undefined userId) + 65
         /\ RedisCacheService.getPortfolioSnapshotKey (Given (f :: fs)) userId
            <> RedisCacheService.getPortfolioSnapshotKey Undefined userId
         /\ startsWith (RedisCacheService.getPortfolioSnapshotKey (Given (f :: fs)) userId)
                       (snapshot_prefix userId) = true).
Proof.
  split.
  - intros userId userId' H. apply (append_cancel "portfolio-snapshot-"). exact H.
  - intros userId f fs.
    assert (Hlength :
              String.length (RedisCacheService.getPortfolioSnapshotKey (Given (f :: fs)) userId)
              = String.length (RedisCacheService.getPortfolioSnapshotKey Undefined userId) + 65).
    { rewrite getPortfolioSnapshotKey_filtered.
      change (RedisCacheService.getPortfolioSnapshotKey Undefined userId)
        with ("portfolio-snapshot-" +:+ userId).
      rewrite (length_append ("portfolio-snapshot-" +:+ userId)), (length_append "-").
      unfold filters_digest. rewrite sha256_hex_length. simpl. lia. }
    split; [exact Hlength|]. split.
    + intros Heq. rewrite Heq in Hlength. lia.
    + apply snapshot_key_under_prefix. clear. induction userId as [|c s IH]; simpl;
        [reflexivity|]. destruct (ascii_dec c c); [exact IH|contradiction].
Qed.

(** ** Composition *)

Lemma client_call_links {A : Type} c (reply : Z -> World -> A * World) w :
  (forall t w0, links (reply t w0).2 = links w0) ->
  links (client_call c reply w).2 = tl (links w).
Proof.
  intros Hreply. unfold client_call.
  destruct (next_link w) as [d|d e|n e|]; simpl; try reflexivity.
  - destruct (timer_first w _); simpl; [reflexivity|].
    specialize (Hreply (now w) (with_now (now w + Z.of_N d) (issue c w))).
    destruct (reply _ _) as [a w2]; simpl in *. exact Hreply.
  - destruct (timer_first w _); reflexivity.
Qed.

Lemma removePortfolioSnapshotsByUserId_links userId w :
  next_link w <> Stalled ->
  links (RedisCacheService.removePortfolioSnapshotsByUserId userId w).2 = tl (tl (links w)).
Proof.
  intros Hlink.
  destruct (getKeys_returns (Given (snapshot_prefix userId)) w Hlink) as [keys Hget].
  rewrite (removePortfolioSnapshotsByUserId_then _ _ _ _ Hget).
  unfold Client.deleteMany. rewrite client_call_links by reflexivity.
  rewrite iterator_links. reflexivity.
Qed.

(** X15. Invalidating twice is invalidating once: after an invalidation the
    store served, a second one for the same user finds no key, hands the
    empty list to [deleteMany] and changes nothing. *)
Theorem removePortfolioSnapshotsByUserId_twice
    (userId : string) (w : World) (d1 d2 d3 d4 : N) (rest : list Link) :
  links w = Up d1 :: Up d2 :: Up d3 :: Up d4 :: rest -> timer w = None ->
  let w1 := after (RedisCacheService.removePortfolioSnapshotsByUserId userId) w in
  (RedisCacheService.removePortfolioSnapshotsByUserId userId w1).1 = Returned tt
  /\ calls (RedisCacheService.removePortfolioSnapshotsByUserId userId w1).2
     = calls w1 ++ [CallIterator; CallDeleteMany []]
  /\ store (RedisCacheService.removePortfolioSnapshotsByUserId userId w1).2 = store w1.
Proof.
  intros Hlinks Htimer w1.
  assert (Hlinks1 : links w1 = Up d3 :: Up d4 :: rest).
  { unfold w1, after. rewrite removePortfolioSnapshotsByUserId_links.
    - rewrite Hlinks. reflexivity.
    - unfold next_link. rewrite Hlinks. discriminate. }
  assert (Htimer1 : timer w1 = None)
    by apply (quiet_serve (RemovePortfolioSnapshotsByUserId userId) w Htimer).
  assert (Hlink1 : next_link w1 = Up d3) by (unfold next_link; rewrite Hlinks1; reflexivity).
  assert (Hnone : List.filter (RedisCacheService.selected (Given (snapshot_prefix userId)))
                    (Store.entries (now w1 + Z.of_N d3) (store w1)).*1 = []).
  { destruct (List.filter _ _) as [|k keys] eqn:Hkeys; [reflexivity|exfalso].
    assert (Hin : k ∈ List.filter (RedisCacheService.selected (Given (snapshot_prefix userId)))
                        (Store.entries (now w1 + Z.of_N d3) (store w1)).*1)
      by (rewrite Hkeys; left).
    apply elem_of_selected_entries in Hin as [Hsel (e & Hlook & Hlive)].
    pose proof (removePortfolioSnapshotsByUserId_clears userId w d1 d2
                  (Up d3 :: Up d4 :: rest) k Hlinks Htimer
                  (selected_startsWith _ _ Hsel)) as Hgone.
    cbv zeta in Hgone. fold (after (RedisCacheService.removePortfolioSnapshotsByUserId userId) w)
      in Hgone. fold w1 in Hgone. unfold Store.get in Hgone. rewrite Hlook in Hgone.
    destruct (expired (now w1) e) eqn:Hexp; [|discriminate Hgone].
    rewrite (expired_later (now w1) (now w1 + Z.of_N d3) e) in Hlive;
      [discriminate Hlive|lia|exact Hexp]. }
  pose proof (getKeys_served (Given (snapshot_prefix userId)) w1 d3 Hlink1) as Hget.
  rewrite Hnone in Hget.
  rewrite (removePortfolioSnapshotsByUserId_calls _ _ _ _ Hget).
  rewrite (removePortfolioSnapshotsByUserId_then _ _ _ _ Hget).
  unfold Client.deleteMany. rewrite (client_call_served _ _ _ d4).
  - cbv zeta. simpl. repeat split.
  - unfold next_link. simpl. rewrite Hlinks1. reflexivity.
  - exact Htimer1.
Qed.

Lemma removePortfolioSnapshotsByUserId_twice_witness :
  let w1 := after (RedisCacheService.removePortfolioSnapshotsByUserId "u1")
              (after (RedisCacheService.set "portfolio-snapshot-u1" "a" Undefined)
                 (fresh 0 60000 [Up 0; Up 1; Up 2; Up 3; Up 4])) in
  (RedisCacheService.removePortfolioSnapshotsByUserId "u1" w1).1 = Returned tt
  /\ calls (RedisCacheService.removePortfolioSnapshotsByUserId "u1" w1).2
     = calls w1 ++ [CallIterator; CallDeleteMany []]
  /\ store (RedisCacheService.removePortfolioSnapshotsByUserId "u1" w1).2 = store w1.
Proof.
  apply (removePortfolioSnapshotsByUserId_twice "u1"
           (after (RedisCacheService.set "portfolio-snapshot-u1" "a" Undefined)
              (fresh 0 60000 [Up 0; Up 1; Up 2; Up 3; Up 4])) 1 2 3 4 []); reflexivity.
Defined.

(** X16. An entry does not outlive its time-to-live: after a [set] the
    store served with a positive ttl, explicit or the configured default, and
    any requests that do not write the key anew, a [get] the store serves
    after the ttl has elapsed returns [undefined]. *)
Theorem set_entry_expires (key value : string) (ttl : optional Z) (w : World)
    (delay delay' : N) (requests : list Request) :
  next_link w = Up delay -> timer w = None ->
  Forall (spares key) requests ->
  let w' := serve_all requests (after (RedisCacheService.set key value ttl) w) in
  next_link w' = Up delay' ->
  (0 < effective_ttl ttl w)%Z ->
  (now w + effective_ttl ttl w < now w' + Z.of_N delay')%Z ->
  (RedisCacheService.get key w').1 = Returned None.
Proof.
  intros Hlink Htimer Hspares w' Hlink' Hpositive Helapsed.
  pose proof (set_served key value ttl w delay Hlink Htimer) as Hset.
  destruct (serve_all_spares key requests (after (RedisCacheService.set key value ttl) w)
              Hspares) as [Hstore Htimer'].
  { unfold after. rewrite Hset. exact Htimer. }
  fold w' in Hstore, Htimer'.
  rewrite (get_served _ _ _ Hlink' Htimer').
  unfold Store.get. rewrite Hstore. unfold after. rewrite Hset. simpl.
  unfold Store.set. rewrite lookup_insert_eq. unfold expired, expires_at. simpl.
  destruct (Z.eqb_spec (effective_ttl ttl w) 0) as [Hzero|_]; [lia|].
  destruct (Z.ltb_spec (now w + effective_ttl ttl w) (now w' + Z.of_N delay'));
    [reflexivity|lia].
Qed.

Lemma set_entry_expires_witness :
  (RedisCacheService.get "quote-YAHOO:AAPL"
     (serve_all [Get "quote-YAHOO:AAPL"]
        (after (RedisCacheService.set "quote-YAHOO:AAPL" "187.2" Undefined)
           (fresh 1700000000000 60000 [Up 2; Up 59000; Up 2000])))).1 = Returned None.
Proof.
  apply (set_entry_expires "quote-YAHOO:AAPL" "187.2" Undefined
           (fresh 1700000000000 60000 [Up 2; Up 59000; Up 2000]) 2 2000
           [Get "quote-YAHOO:AAPL"]).
  - reflexivity.
  - reflexivity.
  - repeat constructor.
  - reflexivity.
  - reflexivity.
  - vm_compute. reflexivity.
Defined.
